(** * JobHub services: browser session manager and Gemini gateway

    A shallow embedding of
      - [src/server/services/puppeteerLauncher.js]  (module [Launcher])
      - [src/server/services/geminiService.js]      (module [Gemini])
    with the properties of their retry, probing and caching policies.

    Modelling conventions.
      - An [async] function is a state transformer over an explicit world:
        it either returns a value or throws, and it leaves a new world.
      - The collaborators (puppeteer, the operation passed to [withPage], the
        generative backend, the clock) are oracles: functions of the history
        of the execution so far.  Every call is recorded in the history, so
        that calls can be counted.
      - A thrown value is an [Error] object, as are all the values thrown by
        puppeteer, by the backend client and by the code under [src/]; its
        [message] is therefore always defined. *)

From Stdlib Require Import List String Ascii Bool Arith PeanoNat ZArith Lia.
From Stdlib Require Import Decimal DecimalString.

Set Warnings "-register-all".
Import ListNotations.

Set Implicit Arguments.

(** ** Completions of JavaScript functions *)

Record Error : Type := mkError { message : string }.

Inductive completion (A : Type) : Type :=
| Returned (a : A)
| Threw (e : Error).

Arguments Returned {A} a.
Arguments Threw {A} e.

(** ** A state and exception monad for [async] functions

    [JS W A]: a computation over worlds [W] that returns an [A] or throws. *)

Definition JS (W A : Type) : Type := W -> completion A * W.

Definition ret {W A} (a : A) : JS W A := fun w => (Returned a, w).
Definition throw {W A} (e : Error) : JS W A := fun w => (Threw e, w).
Definition bind {W A B} (m : JS W A) (k : A -> JS W B) : JS W B :=
  fun w =>
    match m w with
    | (Returned a, w') => k a w'
    | (Threw e, w') => (Threw e, w')
    end.
(** [try { body } catch (err) { handler err }] *)
Definition try_catch {W A} (body : JS W A) (handler : Error -> JS W A)
    : JS W A :=
  fun w =>
    match body w with
    | (Returned a, w') => (Returned a, w')
    | (Threw e, w') => handler e w'
    end.

Declare Scope js_scope.
Delimit Scope js_scope with js.
Notation "x <- c1 ;; c2" := (bind c1 (fun x => c2))
  (at level 61, c1 at next level, right associativity) : js_scope.
Notation "c1 ;; c2" := (bind c1 (fun _ => c2))
  (at level 61, right associativity) : js_scope.
Open Scope js_scope.

Definition is_none {A} (o : option A) : bool :=
  match o with None => true | Some _ => false end.

(** The completion of a call that returns nothing or throws. *)
Definition settle (o : option Error) : completion unit :=
  match o with None => Returned tt | Some e => Threw e end.

(** ** puppeteerLauncher.js *)

Module Launcher.

(** A page handle is the ordinal of the [newPage] call that created it. *)
Definition page := nat.

(** What an execution does to the outside, newest event first.  The boolean
    tells whether the call returned ([true]) or threw ([false]). *)
Inductive event : Type :=
| Launch (ok : bool)
| NewPage (ok : bool)
| SetUserAgent (p : page) (ok : bool)
| Invoke (p : page) (attempt : nat) (ok : bool)
| Close (p : page) (ok : bool)
| Warn (attempt : nat) (msg : string).

Definition history := list event.

Definition is_newPage (ev : event) : bool :=
  match ev with NewPage _ => true | _ => false end.
Definition is_opened (ev : event) : bool :=
  match ev with NewPage true => true | _ => false end.
Definition is_newPage_failure (ev : event) : bool :=
  match ev with NewPage false => true | _ => false end.
Definition is_close (ev : event) : bool :=
  match ev with Close _ _ => true | _ => false end.
Definition is_invoke (ev : event) : bool :=
  match ev with Invoke _ _ _ => true | _ => false end.

Definition count (f : event -> bool) (h : history) : nat :=
  List.length (filter f h).

(** Calls of [browser.newPage()], pages it created, calls of [page.close()]
    and calls of the operation. *)
Definition newPage_calls : history -> nat := count is_newPage.
Definition opened : history -> nat := count is_opened.
Definition close_calls : history -> nat := count is_close.
Definition invocations : history -> nat := count is_invoke.
Definition newPage_failures : history -> nat := count is_newPage_failure.

(** [extends h' h]: the history [h'] is [h] followed by the events [new]
    of a later execution. *)
Definition extends (h' h : history) : Prop :=
  exists new, h' = new ++ h.

(** The module state: [let browserPromise = null], and the history.
    [browserPromise] is [None] for [null], [Some None] for a promise fulfilled
    with a browser and [Some (Some e)] for a promise rejected with [e]. *)
Record world : Type := mkWorld {
  browserPromise : option (option Error);
  trace : history
}.

Definition init_world : world :=
  {| browserPromise := None; trace := [] |}.

Definition M (A : Type) : Type := JS world A.

Definition record (ev : event) (w : world) : world :=
  {| browserPromise := browserPromise w; trace := ev :: trace w |}.

Section WithOracles.

(** The type of the results of the operation. *)
Variable Res : Type.

(** [puppeteer.launch(...)]: [None] when a browser is launched. *)
Variable launch : history -> option Error.
(** [browser.newPage()]: [None] when a page is created. *)
Variable newPage : history -> option Error.
(** [page.setUserAgent(...)] *)
Variable setUserAgent : history -> page -> option Error.
(** [fn(page, attempt)], the operation handed to [withPage]. *)
Variable fn : history -> page -> nat -> Res + Error.
(** [page.close()] *)
Variable close : history -> page -> option Error.

(** [getBrowser]: the launch is started on the first use only, and its
    promise, fulfilled or rejected, is kept. *)
Definition getBrowser : M unit :=
  fun w =>
    match browserPromise w with
    | None =>
        let r := launch (trace w) in
        (settle r,
         {| browserPromise := Some r;
            trace := Launch (is_none r) :: trace w |})
    | Some r => (settle r, w)
    end.

Definition do_newPage : M page :=
  fun w =>
    match newPage (trace w) with
    | None => (Returned (S (opened (trace w))), record (NewPage true) w)
    | Some e => (Threw e, record (NewPage false) w)
    end.

Definition do_setUserAgent (p : page) : M unit :=
  fun w =>
    let r := setUserAgent (trace w) p in
    (settle r, record (SetUserAgent p (is_none r)) w).

Definition do_fn (p : page) (attempt : nat) : M Res :=
  fun w =>
    match fn (trace w) p attempt with
    | inl v => (Returned v, record (Invoke p attempt true) w)
    | inr e => (Threw e, record (Invoke p attempt false) w)
    end.

Definition do_close (p : page) : M unit :=
  fun w =>
    let r := close (trace w) p in
    (settle r, record (Close p (is_none r)) w).

(** [page.close().catch(() => {})] *)
Definition do_close_swallow (p : page) : M unit :=
  try_catch (do_close p) (fun _ => ret tt).

Definition console_warn (attempt : nat) (msg : string) : M unit :=
  fun w => (Returned tt, record (Warn attempt msg) w).

(** The body of the [try] of one attempt: it ends in [return result]. *)
Definition attempt_try (p : page) (attempt : nat) : M (option Res) :=
  do_setUserAgent p ;;
  result <- do_fn p attempt ;;
  do_close p ;;
  ret (Some result).

(** The [catch (err)] of one attempt: it throws [err] again or falls
    through to the next iteration ([None]). *)
Definition attempt_catch (retries : nat) (p : page) (attempt : nat)
    (err : Error) : M (option Res) :=
  console_warn attempt (message err) ;;
  do_close_swallow p ;;
  if retries <? attempt then throw err else ret None.

(** The [for] loop of [withPage], [n] iterations before its guard
    [attempt <= retries + 1] fails: [withPage] enters it with [attempt = 1]
    and [n = retries + 1].  The result [None] is [undefined], the value of
    a function whose body ends without [return]. *)
Fixpoint attempts_from (n retries attempt : nat) : M (option Res) :=
  match n with
  | 0 => ret None
  | S n' =>
      p <- do_newPage ;;
      r <- try_catch (attempt_try p attempt)
                     (attempt_catch retries p attempt) ;;
      match r with
      | Some result => ret (Some result)
      | None => attempts_from n' retries (S attempt)
      end
  end.

Definition withPage (retries : nat) : M (option Res) :=
  getBrowser ;;
  attempts_from (retries + 1) retries 1.

(** The world in which the [catch] of an attempt leaves the page: the
    warning is logged, then the page is closed, whatever [close] answers. *)
Definition caught (p : page) (attempt : nat) (err : Error) (w : world)
    : world :=
  let w1 := record (Warn attempt (message err)) w in
  record (Close p (is_none (close (trace w1) p))) w1.

End WithOracles.

(** Either [res] is the error of a [newPage] call that is the last event of
    [w'], or no [newPage] call failed between [w] and [w']. *)
Definition ends_in_newPage_failure (Res : Type)
    (newPage : history -> option Error)
    (w : world) (res : completion (option Res)) (w' : world) : Prop :=
  (exists h e,
      trace w' = NewPage false :: h /\ extends h (trace w) /\
      newPage h = Some e /\ res = Threw e) \/
  newPage_failures (trace w') = newPage_failures (trace w).

(** *** Concrete collaborators, for the examples *)

Definition healthy : history -> option Error := fun _ => None.
Definition healthy_page : history -> page -> option Error := fun _ _ => None.

(** The error of the [i]-th invocation of a failing operation. *)
Definition timeout_of (i : nat) : Error :=
  mkError (String (ascii_of_nat (48 + i)) ": navigation timeout").

(** An operation that fails on its first [k] invocations and then returns
    [v]. *)
Definition flaky (k v : nat) : history -> page -> nat -> nat + Error :=
  fun h _ _ =>
    if invocations h <? k then inr (timeout_of (invocations h + 1))
    else inl v.

(** An operation that tells its invocations apart by the attempt it is
    given: it fails on the attempts 1 to [k] and returns [v] on the next. *)
Definition by_attempt (k v : nat) : history -> page -> nat -> nat + Error :=
  fun _ _ attempt =>
    if attempt <=? k then inr (timeout_of attempt) else inl v.

(** A page whose first [close()] throws. *)
Definition close_fails_once : history -> page -> option Error :=
  fun h _ =>
    if close_calls h =? 0 then Some (mkError "Target closed") else None.

(** A page whose [close()] throws after a failed operation only. *)
Definition close_fails_in_catch : history -> page -> option Error :=
  fun h _ =>
    match h with
    | Warn _ _ :: _ => Some (mkError "Target closed")
    | _ => None
    end.

(** A browser whose first [newPage()] throws. *)
Definition newPage_fails_once : history -> option Error :=
  fun h =>
    if newPage_calls h =? 0 then Some (mkError "Protocol error") else None.

(** *** Several executions, and the caller of [withPage] *)

Definition is_launch (ev : event) : bool :=
  match ev with Launch _ => true | _ => false end.

(** Calls of [puppeteer.launch(...)]. *)
Definition launch_calls : history -> nat := count is_launch.

(** Calls of the operation on the page [p], and calls of [close()] on
    it. *)
Definition is_invoke_on (p : page) (ev : event) : bool :=
  match ev with Invoke q _ _ => q =? p | _ => false end.
Definition is_close_on (p : page) (ev : event) : bool :=
  match ev with Close q _ => q =? p | _ => false end.
Definition invocations_on (p : page) : history -> nat :=
  count (is_invoke_on p).
Definition closes_on (p : page) : history -> nat := count (is_close_on p).

(** The pages that the events [new] open when they follow [h]: a page is
    the ordinal of the [newPage] call that created it. *)
Definition opened_by (h new : history) (p : page) : Prop :=
  opened h < p <= opened h + opened new.

(** What an execution from [w] to [w'] does with the page [p]: if it opened
    [p], it calls the operation on it once at most and [close()] once or
    twice; if not, it does not use [p]. *)
Definition page_use (w w' : world) (p : page) : Prop :=
  opened (trace w) <= opened (trace w') /\
  (opened (trace w) < p <= opened (trace w') ->
   invocations_on p (trace w') <= invocations_on p (trace w) + 1 /\
   closes_on p (trace w) + 1 <= closes_on p (trace w')
     <= closes_on p (trace w) + 2) /\
  (p <= opened (trace w) \/ opened (trace w') < p ->
   invocations_on p (trace w') = invocations_on p (trace w) /\
   closes_on p (trace w') = closes_on p (trace w)).

Section Callers.

Variable Res : Type.
Variable launch : history -> option Error.
Variable newPage : history -> option Error.
Variable setUserAgent : history -> page -> option Error.
Variable fn : history -> page -> nat -> Res + Error.
Variable close : history -> page -> option Error.

(** Executions of [withPage] one after the other, each with its number of
    retries, on the same module state. *)
Fixpoint withPage_all (rs : list nat) (w : world)
    : list (completion (option Res)) * world :=
  match rs with
  | [] => ([], w)
  | retries :: rest =>
      let (c, w') :=
        withPage launch newPage setUserAgent fn close retries w in
      let (cs, w'') := withPage_all rest w' in
      (c :: cs, w'')
  end.

(** The last events of an execution that returns: the operation returned
    [v] on a page, and this page was closed without an error. *)
Definition returned_cleanly (v : Res) (h' : history) : Prop :=
  exists h p attempt,
    h' = Close p true :: Invoke p attempt true :: h /\
    fn h p attempt = inl v /\
    close (Invoke p attempt true :: h) p = None.

End Callers.

(** **** scrapers/examplePortals.js *)

Section Scraper.

(** The type of what [page.evaluate(...)] extracts. *)
Variable Jobs : Type.

(** [encodeURIComponent(keyword)], which throws a [URIError] on a lone
    surrogate. *)
Variable encodeURIComponent : string -> string + Error.
(** [page.goto(url, { waitUntil: 'domcontentloaded', timeout: 45000 })] *)
Variable goto : history -> page -> string -> option Error.
(** [page.evaluate(() => ...)] *)
Variable evaluate : history -> page -> Jobs + Error.

(** The operation that [scrapeExamplePortal] hands to [withPage]. *)
Definition scrape (keyword : string) : history -> page -> nat -> Jobs + Error :=
  fun h p _ =>
    match encodeURIComponent keyword with
    | inr e => inr e
    | inl q =>
        match goto h p ("https://example.com/jobs?q=" ++ q) with
        | Some e => inr e
        | None => evaluate h p
        end
    end.

Definition scrapeExamplePortal
    (launch newPage : history -> option Error)
    (setUserAgent close : history -> page -> option Error)
    (keyword : string) : M (option Jobs) :=
  withPage launch newPage setUserAgent (scrape keyword) close 2.

End Scraper.

(** An operation that always returns 7, and a page whose [close()] always
    throws once the operation has returned. *)
Definition always_7 : history -> page -> nat -> nat + Error :=
  fun _ _ _ => inl 7.
Definition close_fails_after_success : history -> page -> option Error :=
  fun h _ =>
    match h with
    | Invoke _ _ true :: _ => Some (mkError "Target closed")
    | _ => None
    end.

(** A browser that cannot be launched. *)
Definition no_browser : history -> option Error :=
  fun _ => Some (mkError "Failed to launch the browser process").

(** A site that answers on the second navigation only, with two jobs. *)
Definition goto_second : history -> page -> string -> option Error :=
  fun h _ _ =>
    if invocations h =? 0 then Some (mkError "net::ERR_TIMED_OUT") else None.
Definition two_jobs : history -> page -> list string + Error :=
  fun _ _ => inl ["Proof engineer"; "Compiler engineer"]%string.
(** [encodeURIComponent] on keywords of letters and digits. *)
Definition plain_keyword : string -> string + Error :=
  fun s => inl s.

(** What the counters of [w'] are to those of [w] after [n] iterations at
    most: on the calls to [newPage], to the operation, to [close] and to
    [launch], and on the kept promise. *)
Definition within (n : nat) (w w' : world) : Prop :=
  newPage_calls (trace w') <= newPage_calls (trace w) + n /\
  invocations (trace w') + opened (trace w)
    <= invocations (trace w) + opened (trace w') /\
  opened (trace w') + close_calls (trace w)
    <= opened (trace w) + close_calls (trace w') /\
  close_calls (trace w') + 2 * opened (trace w)
    <= close_calls (trace w) + 2 * opened (trace w') /\
  launch_calls (trace w') = launch_calls (trace w) /\
  browserPromise w' = browserPromise w.

End Launcher.

(** ** geminiService.js *)

Module Gemini.

Open Scope string_scope.

(** *** The response cache: a [Map], which keeps its keys in insertion order *)

Record entry : Type := mkEntry { data : string; timestamp : Z }.

Definition Map : Type := list (string * entry).

(** [map.get(key)], [None] for [undefined] *)
Fixpoint Map_get (key : string) (m : Map) : option entry :=
  match m with
  | [] => None
  | (k, v) :: m' => if String.eqb k key then Some v else Map_get key m'
  end.

(** [map.set(key, v)]: a key that is present keeps its place, a new key goes
    last. *)
Fixpoint Map_set (key : string) (v : entry) (m : Map) : Map :=
  match m with
  | [] => [(key, v)]
  | (k, v0) :: m' =>
      if String.eqb k key then (k, v) :: m' else (k, v0) :: Map_set key v m'
  end.

(** [map.delete(key)] *)
Definition Map_delete (key : string) (m : Map) : Map :=
  filter (fun kv => negb (String.eqb (fst kv) key)) m.

(** [map.size] *)
Definition Map_size (m : Map) : nat := List.length m.

(** [map.keys().next().value] *)
Definition Map_first_key (m : Map) : option string :=
  match m with
  | [] => None
  | (k, _) :: _ => Some k
  end.

Definition Map_keys (m : Map) : list string := map fst m.

(** [this.cacheExpiry = 5 * 60 * 1000], in milliseconds *)
Definition cacheExpiry : Z := 5 * 60 * 1000.

(** [getCached(key)] when [Date.now()] is [now]; [None] is [null]. *)
Definition getCached (now : Z) (key : string) (cache : Map) : option string :=
  match Map_get key cache with
  | Some cached =>
      if (now - timestamp cached <? cacheExpiry)%Z then Some (data cached)
      else None
  | None => None
  end.

(** [setCache(key, data)] when [Date.now()] is [now]. *)
Definition setCache (now : Z) (key text : string) (cache : Map) : Map :=
  let cache1 := Map_set key {| data := text; timestamp := now |} cache in
  if (100 <? Map_size cache1)%nat then
    match Map_first_key cache1 with
    | Some firstKey => Map_delete firstKey cache1
    | None => cache1
    end
  else cache1.

(** One insertion of a run of insertions: the key, the text, and the time. *)
Record insertion : Type := mkInsertion {
  ins_key : string; ins_text : string; ins_time : Z
}.

Definition insert_all (items : list insertion) (cache : Map) : Map :=
  fold_left (fun c it => setCache (ins_time it) (ins_key it) (ins_text it) c)
            items cache.

(** What the cache keeps true: its keys are distinct and it holds 100
    entries at most. *)
Definition cache_ok (cache : Map) : Prop :=
  NoDup (Map_keys cache) /\ (Map_size cache <= 100)%nat.

(** The entries that a run of insertions writes, in order. *)
Definition bindings (items : list insertion) : Map :=
  map (fun it => (ins_key it, mkEntry (ins_text it) (ins_time it))) items.


(** *** The service and its backend *)

(** Calls to the outside, newest first. *)
Inductive event : Type :=
| Probe (modelName : string)                 (* testModel.generateContent('OK') *)
| Abort (modelName : string)                 (* controller.abort() *)
| Generate (modelName prompt : string)       (* this.model.generateContent(prompt) *)
| GenerateStream (modelName prompt : string) (* this.model.generateContentStream(prompt) *)
| Fetch.                                     (* the discovery endpoint *)

Definition is_probe (ev : event) : bool :=
  match ev with Probe _ => true | _ => false end.
Definition is_generation (ev : event) : bool :=
  match ev with Generate _ _ | GenerateStream _ _ => true | _ => false end.
Definition is_fetch (ev : event) : bool :=
  match ev with Fetch => true | _ => false end.

(** The models probed, oldest first. *)
Fixpoint probed (h : list event) : list string :=
  match h with
  | [] => []
  | Probe m :: h' => probed h' ++ [m]
  | _ :: h' => probed h'
  end.

(** Calls of [generateContent(prompt)] and [generateContentStream(prompt)]
    on the active model. *)
Definition generation_calls (h : list event) : nat :=
  List.length (filter is_generation h).
Definition fetch_calls (h : list event) : nat :=
  List.length (filter is_fetch h).

(** The fields of the service ([this.activeModelName], [this.model], named by
    the identifier it is bound to, [this.cache], [this._initPromise]), the
    clock read by [Date.now()], and the calls made so far. *)
Record world : Type := mkWorld {
  activeModelName : option string;
  model : option string;
  cache : Map;
  _initPromise : option (completion unit);
  now : Z;
  calls : list event
}.

Definition M (A : Type) : Type := JS world A.

(** What a world keeps of the one before when only probes and fetches were
    made in between. *)
Definition only_probing (w w' : world) : Prop :=
  generation_calls (calls w') = generation_calls (calls w) /\
  cache w' = cache w /\ _initPromise w' = _initPromise w.

(** The promise of [init] is fulfilled, or was already awaited and
    dropped. *)
Definition settled (w : world) : Prop :=
  _initPromise w = None \/ _initPromise w = Some (Returned tt).

Definition set_active (m : string) (w : world) : world :=
  {| activeModelName := Some m; model := Some m; cache := cache w;
     _initPromise := _initPromise w; now := now w; calls := calls w |}.
Definition set_cache (c : Map) (w : world) : world :=
  {| activeModelName := activeModelName w; model := model w; cache := c;
     _initPromise := _initPromise w; now := now w; calls := calls w |}.
Definition set_initPromise (p : option (completion unit)) (w : world)
    : world :=
  {| activeModelName := activeModelName w; model := model w;
     cache := cache w; _initPromise := p; now := now w; calls := calls w |}.
(** An awaited call to the outside: [evs] are recorded and [ms] milliseconds
    pass. *)
Definition outside (evs : list event) (ms : Z) (w : world) : world :=
  {| activeModelName := activeModelName w; model := model w;
     cache := cache w; _initPromise := _initPromise w;
     now := (now w + ms)%Z; calls := evs ++ calls w |}.
(** Time passing between two calls of the service. *)
Definition elapse (ms : Z) (w : world) : world := outside [] ms w.

(** What [await model.generateContent(prompt)] followed by
    [(await result.response).text()] comes to, after [latency] ms: the
    request is rejected, or it resolves and reading the text gives a string
    or throws. *)
Inductive generated : Type :=
| Rejected (e : Error)
| Resolved (text : string + Error).

Record reply (A : Type) : Type := mkReply { latency : Z; answer : A }.
Arguments mkReply {A} latency answer.

(** An entry of the discovery endpoint's [models] array. *)
Record model_info : Type := mkModelInfo {
  name : option string;
  supportedGenerationMethods : option (list string)
}.

(** What [await fetch(...)] comes to: it is rejected, or it resolves to a
    response with its [ok] flag, whose [json()] gives an object with
    [models] ([None] for [undefined]) or throws. *)
Inductive fetched : Type :=
| FetchRejected (e : Error)
| FetchResponse (ok : bool) (json : option (list model_info) + Error).

(** [s.replace(pattern, replacement)] with a string pattern: the first
    occurrence only. *)
Definition replace_first (pattern replacement s : string) : string :=
  match String.index 0 pattern s with
  | Some i =>
      String.substring 0 i s ++ replacement ++
      String.substring (i + String.length pattern)
        (String.length s - (i + String.length pattern)) s
  | None => s
  end.

Definition TypeError (msg : string) : Error := mkError msg.

(** [data.models?.filter(m => m.supportedGenerationMethods
      ?.includes('generateContent'))?.map(m => m.name.replace('models/', ''))
    || []] *)
Definition supports_generateContent (m : model_info) : bool :=
  match supportedGenerationMethods m with
  | Some methods => existsb (String.eqb "generateContent") methods
  | None => false
  end.

Fixpoint strip_names (ms : list model_info) : list string + Error :=
  match ms with
  | [] => inl []
  | m :: ms' =>
      match name m with
      | None =>
          inr (TypeError "Cannot read properties of undefined (reading 'replace')")
      | Some n =>
          match strip_names ms' with
          | inl names => inl (replace_first "models/" "" n :: names)
          | inr e => inr e
          end
      end
  end.

Definition availableModels (models : option (list model_info))
    : list string + Error :=
  match models with
  | None => inl []
  | Some ms => strip_names (filter supports_generateContent ms)
  end.

(** The candidate that a listed model gives: its [name] without the first
    "models/". *)
Definition candidate_of (info : model_info) (c : string) : Prop :=
  exists raw, name info = Some raw /\ c = replace_first "models/" "" raw.

Definition fastModels : list string :=
  [ "gemini-1.5-flash-8b"; "gemini-2.0-flash-exp"; "gemini-1.5-flash";
    "gemini-1.5-flash-latest"; "gemini-1.5-pro"; "gemini-pro" ].

Definition not_initialized : Error :=
  mkError "No active Gemini model initialized".

Definition lift {A} (r : A + Error) : M A :=
  match r with inl a => ret a | inr e => throw e end.

Section WithBackend.

(** [model.generateContent(prompt)] on the model bound to an identifier *)
Variable generateContent :
  list event -> string -> string -> reply generated.
(** [model.generateContentStream(prompt)]: the stream, a lazy sequence of
    chunks of text, or a rejection *)
Variable generateContentStream :
  list event -> string -> string -> reply (list string + Error).
(** [fetch] of the discovery endpoint *)
Variable fetchModels : list event -> reply fetched.

(** The probe of [tryModel]: the timer of 8000 ms is set, the request is
    awaited, and the timer is cleared if the request resolves.  A timer that
    is still set after 8000 ms calls [controller.abort()]; the request was not
    given [controller.signal].  (After a request rejected before 8000 ms the
    timer is left set and calls [abort()] later, to no effect: the history
    leaves this late call out.) *)
Definition probe (modelName : string) : M string :=
  fun w =>
    let r := generateContent (calls w) modelName "OK" in
    let fired := (8000 <=? latency r)%Z in
    let w' :=
      outside
        (if fired then [Abort modelName; Probe modelName]
         else [Probe modelName]) (latency r) w in
    match answer r with
    | Rejected e => (Threw e, w')
    | Resolved (inl text) => (Returned text, w')
    | Resolved (inr e) => (Threw e, w')
    end.

Definition tryModel (modelName : string) : M bool :=
  try_catch
    (text <- probe modelName ;;
     if negb (String.eqb text "") then
       fun w => (Returned true, set_active modelName w)
     else ret false)
    (fun _ => ret false).

(** Whether the probe of [modelName], made after the calls [h], selects it:
    the request resolves and its text is not empty. *)
Definition accepts (h : list event) (modelName : string) : bool :=
  match answer (generateContent h modelName "OK") with
  | Resolved (inl text) => negb (String.eqb text "")
  | _ => false
  end.

(** [for (const modelName of names) { if (await this.tryModel(modelName))
    return; }]: [true] when the loop returned from [init]. *)
Fixpoint tryEach (names : list string) : M bool :=
  match names with
  | [] => ret false
  | modelName :: rest =>
      ok <- tryModel modelName ;;
      if ok then ret true else tryEach rest
  end.

Definition do_fetch : M (bool * (option (list model_info) + Error)) :=
  fun w =>
    let r := fetchModels (calls w) in
    let w' := outside [Fetch] (latency r) w in
    match answer r with
    | FetchRejected e => (Threw e, w')
    | FetchResponse ok json => (Returned (ok, json), w')
    end.

(** The [try] block of [init]: [true] when it returned from [init]. *)
Definition discover : M bool :=
  modelsResponse <- do_fetch ;;
  if fst modelsResponse then
    data <- lift (snd modelsResponse) ;;
    names <- lift (availableModels data) ;;
    tryEach names
  else ret false.

(** [init], for a list of hardcoded candidates. *)
Definition initWith (candidates : list string) : M unit :=
  found <- tryEach candidates ;;
  if found then ret tt
  else
    found' <- try_catch discover (fun _ => ret false) ;;
    if found' then ret tt else ret tt.

Definition init : M unit := initWith fastModels.

(** The constructor; the promise of [init] is kept settled. *)
Definition construct (candidates : list string) (now0 : Z) : world :=
  let w0 := {| activeModelName := None; model := None; cache := [];
               _initPromise := None; now := now0; calls := [] |} in
  let (r, w1) := initWith candidates w0 in
  set_initPromise (Some r) w1.

(** [export default new GeminiService()] *)
Definition service (now0 : Z) : world := construct fastModels now0.

Definition ensureReady : M unit :=
  fun w =>
    match _initPromise w with
    | Some (Returned _) => (Returned tt, set_initPromise None w)
    | Some (Threw e) => (Threw e, w)
    | None => (Returned tt, w)
    end.

Definition do_generateContent (modelName prompt : string) : M string :=
  fun w =>
    let r := generateContent (calls w) modelName prompt in
    let w' := outside [Generate modelName prompt] (latency r) w in
    match answer r with
    | Rejected e => (Threw e, w')
    | Resolved (inl text) => (Returned text, w')
    | Resolved (inr e) => (Threw e, w')
    end.

Definition generateRaw (prompt : string) : M string :=
  ensureReady ;;
  fun w =>
    match model w with
    | None => (Threw not_initialized, w)
    | Some m =>
        let cacheKey := String.substring 0 100 prompt in
        match getCached (now w) cacheKey (cache w) with
        | Some (String c s) => (Returned (String c s), w)
        | _ =>
            (text <- do_generateContent m prompt ;;
             fun w' =>
               (Returned text,
                set_cache (setCache (now w') cacheKey text (cache w')) w'))
            w
        end
    end.

Definition generateStream (prompt : string) : M (list string) :=
  ensureReady ;;
  fun w =>
    match model w with
    | None => (Threw not_initialized, w)
    | Some m =>
        let r := generateContentStream (calls w) m prompt in
        let w' := outside [GenerateStream m prompt] (latency r) w in
        match answer r with
        | inl stream => (Returned stream, w')
        | inr e => (Threw e, w')
        end
    end.

(** A call of one of the generation methods. *)
Inductive request : Type :=
| Raw (prompt : string)
| Stream (prompt : string).

Definition serve (rq : request) : M unit :=
  match rq with
  | Raw prompt => generateRaw prompt ;; ret tt
  | Stream prompt => generateStream prompt ;; ret tt
  end.

(** The completions of a run of requests, with any time between them. *)
Fixpoint serve_all (rqs : list (Z * request)) (w : world)
    : list (completion unit) * world :=
  match rqs with
  | [] => ([], w)
  | (ms, rq) :: rest =>
      let (c, w') := serve rq (elapse ms w) in
      let (cs, w'') := serve_all rest w' in
      (c :: cs, w'')
  end.

(** *** Recommendations: prompt, extraction of the array, filtering *)

(** The numbers of parsed JSON, IEEE doubles, with their truth value
    ([false] for zero and NaN). *)
Variable number : Type.
Variable number_truthy : number -> bool.

Inductive json : Type :=
| JNull
| JBool (b : bool)
| JNumber (x : number)
| JString (s : string)
| JArray (elements : list json)
| JObject (fields : list (string * json)).

(** [JSON.parse(s)], which throws a [SyntaxError] on malformed text; the
    fields of an object come with one entry per key. *)
Variable JSON_parse : string -> json + Error.

(** The truth value of a parsed value, as in [if (v)]. *)
Definition truthy (v : json) : bool :=
  match v with
  | JNull => false
  | JBool b => b
  | JNumber x => number_truthy x
  | JString s => negb (String.eqb s "")
  | JArray _ | JObject _ => true
  end.

Fixpoint assoc (key : string) (fields : list (string * json))
    : option json :=
  match fields with
  | [] => None
  | (k, v) :: fields' =>
      if String.eqb k key then Some v else assoc key fields'
  end.

(** [r.jobId] and [r.matchScore] on a parsed value that is not [null];
    [None] is [undefined], which is what a value that is not an object
    answers for these two names. *)
Definition property (key : string) (r : json) : option json :=
  match r with
  | JObject fields => assoc key fields
  | _ => None
  end.

(** [r => r && r.jobId && typeof r.matchScore === 'number'] *)
Definition keep (r : json) : bool :=
  truthy r &&
  match property "jobId" r with Some v => truthy v | None => false end &&
  match property "matchScore" r with Some (JNumber _) => true | _ => false end.

(** A recommendation that can be used: an object, that is not [null], with
    a [jobId] and with a [matchScore] that is a number. *)
Definition usable (r : json) : Prop :=
  exists fields jobId score,
    r = JObject fields /\
    assoc "jobId" fields = Some jobId /\
    assoc "matchScore" fields = Some (JNumber score).

(** The suffix of [s] that starts at the first [c]. *)
Fixpoint from_first (c : ascii) (s : string) : option string :=
  match s with
  | EmptyString => None
  | String a s' =>
      if Ascii.eqb a c then Some s else from_first c s'
  end.

(** The prefix of [s] that ends at the last [c]. *)
Fixpoint upto_last (c : ascii) (s : string) : option string :=
  match s with
  | EmptyString => None
  | String a s' =>
      match upto_last c s' with
      | Some p => Some (String a p)
      | None => if Ascii.eqb a c then Some (String a EmptyString) else None
      end
  end.

(** [text.match(/\[[\s\S]*\]/)], and the same with braces: the leftmost
    opening character, then as much as possible up to a closing one. *)
Definition match_enclosed (opening closing : ascii) (text : string)
    : option string :=
  match from_first opening text with
  | Some (String a rest) =>
      match upto_last closing rest with
      | Some p => Some (String a p)
      | None => None
      end
  | _ => None
  end.

(** [extractFirstJSONArray(text)]; [None] is [null]. *)
Definition extractFirstJSONArray (text : string) : option json :=
  match match_enclosed "[" "]" text with
  | Some m =>
      match JSON_parse m with
      | inl v => Some v
      | inr _ => None
      end
  | None => None
  end.

(** The fields that the prompt reads; [None] is [undefined]. *)
Record job : Type := mkJob {
  job_title : option string;
  job_company : option string;
  job_location : option string;
  job_skills : option (list string);
  job_id : option string;
  job__id : option string
}.

Record schooling : Type := mkSchooling { degree : option string }.

Record resume : Type := mkResume {
  skills : option (list string);
  education : option (list schooling);
  totalExperience : nat
}.

(** [`${x}`] *)
Definition show (x : option string) : string :=
  match x with Some s => s | None => "undefined" end.
(** An element of [array.join(...)]: [undefined] is the empty string. *)
Definition joined (x : option string) : string :=
  match x with Some s => s | None => "" end.
(** [a || b] *)
Definition or_else (a b : option string) : option string :=
  match a with
  | Some (String _ _) => a
  | _ => b
  end.
Definition or_empty {A} (l : option (list A)) : list A :=
  match l with Some l => l | None => [] end.
Definition decimal (n : nat) : string :=
  NilEmpty.string_of_uint (Nat.to_uint n).
Definition newline : string := String (ascii_of_nat 10) EmptyString.
Definition quote : string := String (ascii_of_nat 34) EmptyString.

Fixpoint mapi_from {A B} (i : nat) (f : A -> nat -> B) (l : list A)
    : list B :=
  match l with
  | [] => []
  | a :: l' => f a i :: mapi_from (S i) f l'
  end.

Definition formatJob (j : job) (i : nat) : string :=
  decimal (i + 1) ++ "|" ++ show (job_title j) ++ "|" ++
  show (job_company j) ++ "|" ++ show (job_location j) ++ "|" ++
  String.concat "," (firstn 3 (or_empty (job_skills j))) ++ "|" ++
  show (or_else (job_id j) (job__id j)).

(** The prompt of [getJobRecommendations]; reading a property of a
    [resumeData] that is [null] or [undefined] throws. *)
Definition recommendationPrompt (resumeData : option resume)
    (availableJobs : option (list job)) : string + Error :=
  let topJobs := firstn 15 (or_empty availableJobs) in
  let formattedJobs := String.concat newline (mapi_from 0 formatJob topJobs) in
  match resumeData with
  | None => inr (TypeError "Cannot read properties of null (reading 'skills')")
  | Some resumeData =>
      let skills := String.concat ", " (firstn 5 (or_empty (skills resumeData))) in
      let edu :=
        String.concat ", "
          (firstn 2 (map (fun e => joined (degree e))
                         (or_empty (education resumeData)))) in
      inl ("Match candidate to jobs. Output JSON array only." ++ newline ++
           newline ++
           "Candidate: " ++ skills ++ " | " ++
           decimal (totalExperience resumeData) ++ "y | " ++
           (if String.eqb edu "" then "N/A" else edu) ++ newline ++
           newline ++
           "Jobs (ID|Title|Company|Location|Skills|JobID):" ++ newline ++
           formattedJobs ++ newline ++
           newline ++
           "JSON format:" ++ newline ++
           "[{" ++ quote ++ "jobId" ++ quote ++ ":" ++ quote ++ "exact_id" ++
           quote ++ "," ++ quote ++ "matchScore" ++ quote ++ ":0.85," ++
           quote ++ "reasons" ++ quote ++ ":[" ++ quote ++ "reason1" ++
           quote ++ "," ++ quote ++ "reason2" ++ quote ++ "]}]" ++ newline ++
           newline ++
           "Rules: score 0-1, limit 5, min score 0.6")
  end.

Definition getJobRecommendations (resumeData : option resume)
    (availableJobs : option (list job)) : M (list json) :=
  try_catch
    (prompt <- lift (recommendationPrompt resumeData availableJobs) ;;
     text <- generateRaw prompt ;;
     match extractFirstJSONArray text with
     | Some (JArray arr) => ret (firstn 5 (filter keep arr))
     | _ => ret []
     end)
    (fun _ => ret []).

(** Whether the character [c] occurs in [s]. *)
Fixpoint occurs (c : ascii) (s : string) : bool :=
  match s with
  | EmptyString => false
  | String a s' => Ascii.eqb a c || occurs c s'
  end.

(** *** Question type detection *)

(** [c.toLowerCase()] on an ASCII character. *)
Definition lower (c : ascii) : ascii :=
  let n := nat_of_ascii c in
  if (65 <=? n)%nat && (n <=? 90)%nat then ascii_of_nat (n + 32) else c.

(** [message.toLowerCase()]; messages are made of ASCII characters. *)
Fixpoint toLowerCase (s : string) : string :=
  match s with
  | EmptyString => EmptyString
  | String c s' => String (lower c) (toLowerCase s')
  end.

(** [s.includes(sub)] *)
Fixpoint includes (s sub : string) : bool :=
  String.prefix sub s ||
  match s with
  | EmptyString => false
  | String _ s' => includes s' sub
  end.

Definition jobKeywords : list string :=
  [ "job"; "career"; "resume"; "interview"; "apply"; "application";
    "hire"; "hiring"; "recruiter"; "company"; "work"; "position";
    "role"; "faang"; "google"; "microsoft"; "amazon"; "meta"; "apple";
    "software engineer"; "developer"; "data scientist"; "analyst";
    "salary"; "offer"; "internship"; "placement"; "job market";
    "skill"; "experience"; "qualification"; "cv"; "cover letter";
    "recommend jobs"; "suggest jobs"; "best jobs"; "suitable jobs" ].

Definition isJobRelatedQuestion (message : string) : bool :=
  let lowerMessage := toLowerCase message in
  existsb (fun keyword => includes lowerMessage keyword) jobKeywords.

(** *** The other public methods *)

(** [extractFirstJSONBlock(text)]; [None] is [null]. *)
Definition extractFirstJSONBlock (text : string) : option json :=
  match match_enclosed "{" "}" text with
  | Some m =>
      match JSON_parse m with
      | inl v => Some v
      | inr _ => None
      end
  | None => None
  end.

(** [a || b] on strings *)
Definition str_or (a b : string) : string :=
  if String.eqb a "" then b else a.

(** [array.slice(-n)] *)
Definition last_n {A} (n : nat) (l : list A) : list A :=
  skipn (List.length l - n) l.

(** The first error of a list of results, or all the values. *)
Fixpoint all_or_error {A} (l : list (A + Error)) : list A + Error :=
  match l with
  | [] => inl []
  | inr e :: _ => inr e
  | inl a :: l' =>
      match all_or_error l' with
      | inl l'' => inl (a :: l'')
      | inr e => inr e
      end
  end.

Definition parseResumePrompt (truncated : string) : string :=
  "Extract JSON from resume (no markdown, no explanation):" ++ newline ++
  newline ++ truncated ++ newline ++ newline ++ "JSON format:" ++ newline ++
  "{" ++ quote ++ "name" ++ quote ++ ":" ++ quote ++ quote ++ "," ++ quote ++
  "email" ++ quote ++ ":" ++ quote ++ quote ++ "," ++ quote ++ "phone" ++
  quote ++ ":" ++ quote ++ quote ++ "," ++ quote ++ "skills" ++ quote ++
  ":[]," ++ quote ++ "experience" ++ quote ++ ":[{" ++ quote ++ "title" ++
  quote ++ ":" ++ quote ++ quote ++ "," ++ quote ++ "company" ++ quote ++
  ":" ++ quote ++ quote ++ "," ++ quote ++ "duration" ++ quote ++ ":" ++
  quote ++ quote ++ "}]," ++ quote ++ "education" ++ quote ++ ":[{" ++
  quote ++ "degree" ++ quote ++ ":" ++ quote ++ quote ++ "," ++ quote ++
  "institution" ++ quote ++ ":" ++ quote ++ quote ++ "," ++ quote ++
  "year" ++ quote ++ ":" ++ quote ++ quote ++ "}]," ++ quote ++ "summary" ++
  quote ++ ":" ++ quote ++ quote ++ "," ++ quote ++ "totalExperience" ++
  quote ++ ":0}" ++ newline ++ newline ++ "Output only JSON:".

Definition parseResume (resumeText : string) : M json :=
  try_catch
    (if String.eqb resumeText "" then throw (mkError "resumeText empty")
     else
       let truncated := String.substring 0 2000 resumeText in
       let prompt := parseResumePrompt truncated in
       text <- generateRaw prompt ;;
       match extractFirstJSONBlock text with
       | Some json =>
           if truthy json then ret json
           else throw (mkError "Failed to extract JSON")
       | None => throw (mkError "Failed to extract JSON")
       end)
    (fun _ => throw (mkError "Failed to parse resume")).

(** A turn of [chatHistory]; reading [substring] of a [content] that is
    [undefined] throws. *)
Record turn : Type := mkTurn {
  role : option string;
  content : option string
}.

(** [context], whose fields may be [undefined]. *)
Record context : Type := mkContext {
  ctx_resumeData : option resume;
  ctx_availableJobs : option (list job);
  ctx_chatHistory : option (list turn)
}.

(** [context = {}] *)
Definition no_context : context := mkContext None None None.

(** [h => `${h.role}: ${h.content.substring(0, limit)}`] *)
Definition turn_line (limit : nat) (h : turn) : string + Error :=
  match content h with
  | None =>
      inr (TypeError "Cannot read properties of undefined (reading 'substring')")
  | Some c => inl (show (role h) ++ ": " ++ String.substring 0 limit c)
  end.

(** [(chatHistory || []).slice(-n).map(h => ...).join(separator)] *)
Definition historySnippet (n limit : nat) (separator : string)
    (chatHistory : option (list turn)) : string + Error :=
  match all_or_error (map (turn_line limit) (last_n n (or_empty chatHistory))) with
  | inl lines => inl (String.concat separator lines)
  | inr e => inr e
  end.

(** [(availableJobs || []).slice(0, 5).map(j => `${j.title} @
    ${j.company}`).join(', ')] *)
Definition jobsSnippet (availableJobs : option (list job)) : string :=
  String.concat ", "
    (map (fun j => show (job_title j) ++ " @ " ++ show (job_company j))
         (firstn 5 (or_empty availableJobs))).

(** [(resumeData?.skills || []).slice(0, 5).join(', ')] *)
Definition skillsOf (resumeData : option resume) : string :=
  String.concat ", "
    (firstn 5 (or_empty (match resumeData with
                         | Some r => skills r
                         | None => None
                         end))).
(** [resumeData?.totalExperience || 0] *)
Definition expOf (resumeData : option resume) : nat :=
  match resumeData with Some r => totalExperience r | None => 0 end.
(** [(resumeData?.education || []).map(e => e.degree).slice(0, 2)
    .join(', ')] *)
Definition eduOf (resumeData : option resume) : string :=
  String.concat ", "
    (firstn 2 (map (fun e => joined (degree e))
                   (or_empty (match resumeData with
                              | Some r => education r
                              | None => None
                              end)))).

Definition jobChatPrompt (skills : string) (exp : nat) (edu jobsSnippet
    historySnippet message : string) : string :=
  "You are JobHub AI - an expert career advisor and job search assistant." ++
  newline ++ newline ++ "User Profile:" ++ newline ++ "- Skills: " ++
  str_or skills "Not specified" ++ newline ++ "- Experience: " ++
  decimal exp ++ " years" ++ newline ++ "- Education: " ++
  str_or edu "Not specified" ++ newline ++ newline ++ "Available Jobs: " ++
  str_or jobsSnippet "No jobs loaded" ++ newline ++ newline ++
  "Recent Conversation: " ++ str_or historySnippet "None" ++ newline ++
  newline ++ "User Question: " ++ message ++ newline ++ newline ++
  "Instructions:" ++ newline ++
  "- If user asks about jobs/career, use their profile and available jobs to give personalized advice" ++
  newline ++
  "- If recommending specific jobs, mention job titles and companies from available jobs" ++
  newline ++
  "- If profile is incomplete, suggest updating it for better recommendations" ++
  newline ++ "- Be helpful, direct, and actionable" ++ newline ++
  "- Keep response under 150 words" ++ newline ++ newline ++ "Answer:".

Definition generalChatPrompt (historySnippet message : string) : string :=
  "You are a highly intelligent AI assistant - knowledgeable, helpful, and versatile across all topics." ++
  newline ++ newline ++ "You can help with:" ++ newline ++
  "- General knowledge, science, math, history, technology" ++ newline ++
  "- Life advice, productivity, learning strategies" ++ newline ++
  "- Coding, debugging, technical problems" ++ newline ++
  "- Creative writing, brainstorming, explanations" ++ newline ++
  "- Problem-solving, decision-making, planning" ++ newline ++
  "- And anything else the user needs" ++ newline ++ newline ++
  "Recent Conversation:" ++ newline ++ str_or historySnippet "None" ++
  newline ++ newline ++ "User Question: " ++ message ++ newline ++ newline ++
  "Instructions:" ++ newline ++
  "- Give direct, accurate, and helpful answers" ++ newline ++
  "- Be conversational but professional" ++ newline ++
  "- If it's a complex question, break it down clearly" ++ newline ++
  "- Use examples when helpful" ++ newline ++
  "- Be encouraging and supportive" ++ newline ++
  "- Keep response clear and concise (under 200 words unless more detail needed)" ++
  newline ++ newline ++ "Answer:".

(** The prompt of [chatWithAI]. *)
Definition chatPrompt (message : string) (ctx : context) : string + Error :=
  if isJobRelatedQuestion message then
    match historySnippet 3 60 " | " (ctx_chatHistory ctx) with
    | inr e => inr e
    | inl history =>
        inl (jobChatPrompt (skillsOf (ctx_resumeData ctx))
               (expOf (ctx_resumeData ctx)) (eduOf (ctx_resumeData ctx))
               (jobsSnippet (ctx_availableJobs ctx)) history message)
    end
  else
    match historySnippet 3 80 newline (ctx_chatHistory ctx) with
    | inr e => inr e
    | inl history => inl (generalChatPrompt history message)
    end.

Definition chatWithAI (message : string) (ctx : context) : M string :=
  try_catch
    (prompt <- lift (chatPrompt message ctx) ;;
     generateRaw prompt)
    (fun _ => throw (mkError "Failed to get AI response")).

Definition jobStreamPrompt (skills : string) (exp : nat)
    (jobsSnippet message : string) : string :=
  "You are JobHub AI - career advisor." ++ newline ++ newline ++ "User: " ++
  str_or skills "Skills not specified" ++ " | " ++ decimal exp ++ "y exp" ++
  newline ++ "Jobs: " ++ str_or jobsSnippet "None" ++ newline ++ newline ++
  "Q: " ++ message ++ newline ++ "A:".

Definition generalStreamPrompt (historySnippet message : string) : string :=
  "You are an intelligent AI assistant, helpful across all topics." ++
  newline ++ newline ++ "History: " ++ str_or historySnippet "None" ++
  newline ++ newline ++ "Q: " ++ message ++ newline ++ "A:".

(** The prompt of [chatWithAIStream]. *)
Definition chatStreamPrompt (message : string) (ctx : context)
    : string + Error :=
  if isJobRelatedQuestion message then
    inl (jobStreamPrompt (skillsOf (ctx_resumeData ctx))
           (expOf (ctx_resumeData ctx))
           (jobsSnippet (ctx_availableJobs ctx)) message)
  else
    match historySnippet 2 60 " | " (ctx_chatHistory ctx) with
    | inr e => inr e
    | inl history => inl (generalStreamPrompt history message)
    end.

Definition chatWithAIStream (message : string) (ctx : context)
    : M (list string) :=
  try_catch
    (prompt <- lift (chatStreamPrompt message ctx) ;;
     generateStream prompt)
    (fun _ => throw (mkError "Failed to get AI stream response")).

(** The fields of a job that [analyzeJobMarket] reads; [salary_min] is
    [j.salary?.min]. *)
Record listing : Type := mkListing {
  listing_title : option string;
  listing_company : option string;
  listing_location : option string;
  salary_min : option nat
}.

(** [j => `${j.title}|${j.company}|${j.location}|${j.salary?.min || 0}`] *)
Definition listing_line (j : listing) : string :=
  show (listing_title j) ++ "|" ++ show (listing_company j) ++ "|" ++
  show (listing_location j) ++ "|" ++
  decimal (match salary_min j with Some n => n | None => 0 end).

Definition marketPrompt (chunk : string) : string :=
  "Analyze jobs, return JSON only:" ++ newline ++ newline ++
  "Jobs (Title|Company|Location|Salary):" ++ newline ++ chunk ++ newline ++
  newline ++ "JSON format:" ++ newline ++ "{" ++ quote ++ "topSkills" ++
  quote ++ ":[" ++ quote ++ "skill1" ++ quote ++ "," ++ quote ++ "skill2" ++
  quote ++ "," ++ quote ++ "skill3" ++ quote ++ "]," ++ quote ++
  "salaryTrends" ++ quote ++ ":" ++ quote ++ "brief trend" ++ quote ++ "," ++
  quote ++ "popularLocations" ++ quote ++ ":[" ++ quote ++ "loc1" ++ quote ++
  "," ++ quote ++ "loc2" ++ quote ++ "]," ++ quote ++ "insights" ++ quote ++
  ":[" ++ quote ++ "insight1" ++ quote ++ "," ++ quote ++ "insight2" ++
  quote ++ "]}" ++ newline ++ newline ++ "Output only JSON:".

Definition analyzeJobMarket (jobs : option (list listing))
    : M (option json) :=
  try_catch
    (let chunk :=
       String.concat newline
         (map listing_line (firstn 30 (or_empty jobs))) in
     let prompt := marketPrompt chunk in
     text <- generateRaw prompt ;;
     match extractFirstJSONBlock text with
     | Some json => ret (if truthy json then Some json else None)
     | None => ret None
     end)
    (fun _ => ret None).

End WithBackend.

Arguments JNull {number}.
Arguments JBool {number} b.
Arguments JNumber {number} x.
Arguments JString {number} s.
Arguments JArray {number} elements.
Arguments JObject {number} fields.

(** *** Concrete data, for the examples *)

(** A backend on which the model "A" is not served and every other model
    answers at once. *)
Definition all_but_A : list event -> string -> string -> reply generated :=
  fun _ modelName _ =>
    if String.eqb modelName "A"
    then mkReply 120 (Rejected (mkError "404 Not Found"))
    else mkReply 350 (Resolved (inl "OK")).

(** A backend that serves no model. *)
Definition no_model : list event -> string -> string -> reply generated :=
  fun _ _ _ => mkReply 120 (Rejected (mkError "404 Not Found")).

Definition no_stream
    : list event -> string -> string -> reply (list string + Error) :=
  fun _ _ _ => mkReply 120 (inr (mkError "404 Not Found")).

(** A backend that answers "OK" to everything, at once. *)
Definition always_OK : list event -> string -> string -> reply generated :=
  fun _ _ _ => mkReply 100 (Resolved (inl "OK")).


(** A backend on which the model "A" takes ten seconds to answer "OK", and
    every other model answers at once. *)
Definition slow_A : list event -> string -> string -> reply generated :=
  fun _ modelName _ =>
    mkReply (if String.eqb modelName "A" then 10000 else 100)
            (Resolved (inl "OK")).

Definition two_chunks
    : list event -> string -> string -> reply (list string + Error) :=
  fun _ _ _ => mkReply 50 (inl ["Hel"; "lo"]).

(** A parser that knows one text, an array of seven values; numbers are
    given in hundredths. *)
Definition recommendation (jobId : string) (score : nat) : json nat :=
  JObject [("jobId", JString jobId); ("matchScore", JNumber score)].

Definition parse_seven (s : string) : json nat + Error :=
  if String.eqb s "[...]" then
    inl (JArray [ recommendation "j1" 85; JNull;
                  JObject [("jobId", JString "j2")];
                  recommendation "" 90;
                  JObject [("jobId", JString "j3");
                           ("matchScore", JString "0.7")];
                  recommendation "j4" 80; recommendation "j5" 75;
                  recommendation "j6" 70; recommendation "j7" 65;
                  recommendation "j8" 60; recommendation "j9" 60 ])
  else inr (mkError "Unexpected token").

(** A backend that answers with that text, after a word of introduction. *)
Definition answers_array : list event -> string -> string -> reply generated :=
  fun _ _ prompt =>
    mkReply 100
      (Resolved (inl (if String.eqb prompt "OK" then "OK"
                      else "Here you are: [...] Good luck!"))).

(** A backend that answers every prompt with an object in a sentence, and a
    parser that makes an object of any text. *)
Definition answers_block : list event -> string -> string -> reply generated :=
  fun _ _ prompt =>
    mkReply 100
      (Resolved (inl (if String.eqb prompt "OK" then "OK"
                      else "Here it is: {...}"))).
Definition parse_block (s : string) : json nat + Error :=
  inl (JObject [("parsed", JString s)]).

(** Two resumes that begin with the same 43 characters. *)
Definition resume_A : string :=
  "Jane Doe - jane@example.org - Proof engineer, Rocq and OCaml, 12 years".
Definition resume_B : string :=
  "Jane Doe - jane@example.org - Proof engineer (2014-2026), then manager".

(** A world before the construction of the service. *)
Definition blank : world :=
  {| activeModelName := None; model := None; cache := [];
     _initPromise := None; now := 0; calls := [] |}.

(** A discovery endpoint that cannot be reached. *)
Definition unreachable : list event -> reply fetched :=
  fun _ => mkReply 30 (FetchRejected (mkError "fetch failed")).

(** A discovery endpoint that lists two models, one of which generates. *)
Definition lists_two : list event -> reply fetched :=
  fun _ =>
    mkReply 200
      (FetchResponse true
         (inl (Some [ mkModelInfo (Some "models/gemini-x")
                        (Some ["generateContent"; "countTokens"]);
                      mkModelInfo (Some "models/embedding-001")
                        (Some ["embedContent"]) ]))).

(** A backend that serves the models "gemini-x" and "gemini-y" only, and a
    discovery endpoint that lists four models: one that does not generate,
    one that is not served, and these two. *)
Definition serves_x_and_y : list event -> string -> string -> reply generated :=
  fun _ modelName _ =>
    if String.eqb modelName "gemini-x" || String.eqb modelName "gemini-y"
    then mkReply 300 (Resolved (inl "OK"))
    else mkReply 120 (Rejected (mkError "404 Not Found")).
Definition embedding_001 : model_info :=
  mkModelInfo (Some "models/embedding-001") (Some ["embedContent"]).
Definition gemini_w : model_info :=
  mkModelInfo (Some "models/gemini-w") (Some ["generateContent"]).
Definition gemini_x : model_info :=
  mkModelInfo (Some "models/gemini-x")
    (Some ["generateContent"; "countTokens"]).
Definition gemini_y : model_info :=
  mkModelInfo (Some "models/gemini-y") (Some ["generateContent"]).
Definition lists_four : list event -> reply fetched :=
  fun _ =>
    mkReply 200
      (FetchResponse true
         (inl (Some [embedding_001; gemini_w; gemini_x; gemini_y]))).

(** The [n]-th insertion of a run: key [n] in decimal, at time [n]. *)
Definition numbered (n : nat) : insertion :=
  {| ins_key := decimal n; ins_text := "answer " ++ decimal n;
     ins_time := Z.of_nat n |}.

End Gemini.

Module LauncherSpec.
Import Launcher.

Lemma count_cons (f : event -> bool) (ev : event) (h : history) :
  count f (ev :: h) = (if f ev then 1 else 0) + count f h.
Proof. unfold count; simpl; destruct (f ev); reflexivity. Qed.

Lemma count_app (f : event -> bool) (h1 h2 : history) :
  count f (h1 ++ h2) = count f h1 + count f h2.
Proof. unfold count; rewrite filter_app, length_app; reflexivity. Qed.

#[local] Arguments attempt_catch : simpl never.
#[local] Arguments Nat.ltb : simpl never.

Lemma extends_refl (h : history) : extends h h.
Proof. exists []. reflexivity. Qed.

Lemma extends_cons (ev : event) (h' h : history) :
  extends h' h -> extends (ev :: h') h.
Proof. intros [new ->]. exists (ev :: new). reflexivity. Qed.

Lemma extends_trans (h3 h2 h1 : history) :
  extends h3 h2 -> extends h2 h1 -> extends h3 h1.
Proof.
  intros [n2 ->] [n1 ->]. exists (n2 ++ n1). apply app_assoc.
Qed.

Section Equations.

Variable Res : Type.
Variable launch : history -> option Error.
Variable newPage : history -> option Error.
Variable setUserAgent : history -> page -> option Error.
Variable fn : history -> page -> nat -> Res + Error.
Variable close : history -> page -> option Error.

Lemma attempt_catch_eq (retries : nat) (p : page) (attempt : nat)
    (err : Error) (w : world) :
  attempt_catch Res close retries p attempt err w =
  (if retries <? attempt then Threw err else Returned None,
   caught close p attempt err w).
Proof.
  unfold attempt_catch, caught, do_close_swallow, do_close, console_warn,
    try_catch, bind, ret, throw, settle.
  destruct (retries <? attempt); cbn; destruct (close _ _); reflexivity.
Qed.

(** One iteration of the loop, spelled out on the oracles. *)
Lemma attempts_from_S (n retries attempt : nat) (w : world) :
  attempts_from newPage setUserAgent fn close (S n) retries attempt w =
  match newPage (trace w) with
  | Some e => (Threw e, record (NewPage false) w)
  | None =>
      let p := S (opened (trace w)) in
      let w1 := record (NewPage true) w in
      let next e w' :=
        let w'' := caught close p attempt e w' in
        if retries <? attempt then (Threw e, w'')
        else attempts_from newPage setUserAgent fn close n retries
               (S attempt) w'' in
      match setUserAgent (trace w1) p with
      | Some e => next e (record (SetUserAgent p false) w1)
      | None =>
          let w2 := record (SetUserAgent p true) w1 in
          match fn (trace w2) p attempt with
          | inr e => next e (record (Invoke p attempt false) w2)
          | inl v =>
              let w3 := record (Invoke p attempt true) w2 in
              match close (trace w3) p with
              | Some e => next e (record (Close p false) w3)
              | None => (Returned (Some v), record (Close p true) w3)
              end
          end
      end
  end.
Proof.
  cbn [attempts_from]. unfold bind at 1. unfold do_newPage.
  destruct (newPage (trace w)); [reflexivity|].
  unfold bind at 1. unfold try_catch.
  unfold attempt_try, do_setUserAgent, do_fn, do_close, bind, ret, settle.
  cbn.
  destruct (setUserAgent _ _); cbn.
  { rewrite attempt_catch_eq. destruct (retries <? attempt); reflexivity. }
  destruct (fn _ _ _); cbn.
  2:{ rewrite attempt_catch_eq. destruct (retries <? attempt); reflexivity. }
  destruct (close _ _) eqn:Hc; cbn; [|reflexivity].
  rewrite attempt_catch_eq. destruct (retries <? attempt); reflexivity.
Qed.

Lemma withPage_eq (retries : nat) (w : world) :
  withPage launch newPage setUserAgent fn close retries w =
  match browserPromise w with
  | None =>
      let w' := {| browserPromise := Some (launch (trace w));
                   trace := Launch (is_none (launch (trace w))) :: trace w |} in
      match launch (trace w) with
      | None =>
          attempts_from newPage setUserAgent fn close (retries + 1)
            retries 1 w'
      | Some e => (Threw e, w')
      end
  | Some None =>
      attempts_from newPage setUserAgent fn close (retries + 1) retries 1 w
  | Some (Some e) => (Threw e, w)
  end.
Proof.
  unfold withPage, bind, getBrowser.
  destruct (browserPromise w) as [[e|]|]; try reflexivity.
  destruct (launch (trace w)); reflexivity.
Qed.

End Equations.

Ltac count_events :=
  unfold invocations, newPage_calls, opened, close_calls, caught, record in *;
  cbn [trace] in *;
  repeat rewrite count_cons in *; cbn [is_invoke is_newPage is_opened is_close
    is_newPage_failure] in *.

Section RetryBound.

Variable Res : Type.
Variable launch : history -> option Error.
Variable newPage : history -> option Error.
Variable setUserAgent : history -> page -> option Error.
Variable fn : history -> page -> nat -> Res + Error.
Variable close : history -> page -> option Error.

(** The operation fails on its first [k] invocations, with the errors
    [errs 1], ..., [errs k], and returns [v] on invocation [k + 1];
    [base] invocations were made before.  Invocation [i + 1] is the call
    [fn(page, i + 1)], made after [i] invocations: the operation may tell
    its invocations apart by what was done before or by the attempt it is
    given. *)
Variables (k base : nat) (v : Res) (errs : nat -> Error).
Hypothesis fn_fails : forall h p i,
  invocations h = base + i -> i < k -> fn h p (i + 1) = inr (errs (i + 1)).
Hypothesis fn_succeeds : forall h p,
  invocations h = base + k -> fn h p (k + 1) = inl v.

(** The browser works: it is launched, pages are created and named, and a
    page closes once the operation has returned. *)
Hypothesis launch_ok : forall h, launch h = None.
Hypothesis newPage_ok : forall h, newPage h = None.
Hypothesis setUserAgent_ok : forall h p, setUserAgent h p = None.
Hypothesis close_ok : forall h p a, close (Invoke p a true :: h) p = None.

Lemma attempts_from_retry (retries : nat) :
  forall n attempt w,
    1 <= n -> attempt + n = retries + 2 -> 1 <= attempt ->
    attempt - 1 <= k ->
    invocations (trace w) = base + (attempt - 1) ->
    let (res, w') :=
      attempts_from newPage setUserAgent fn close n retries attempt w in
    (k <= retries ->
       res = Returned (Some v) /\
       invocations (trace w') = base + (k + 1)) /\
    (retries < k ->
       res = Threw (errs (retries + 1)) /\
       invocations (trace w') = base + (retries + 1)).
Proof.
  induction n as [|n IH]; intros attempt w Hn Hsum Ha Hk Hinv; [lia|].
  rewrite attempts_from_S, newPage_ok. cbv zeta.
  rewrite setUserAgent_ok.
  set (p := S (opened (trace w))).
  set (w2 := record (SetUserAgent p true) (record (NewPage true) w)).
  assert (Hinv2 : invocations (trace w2) = base + (attempt - 1))
    by (subst w2; count_events; exact Hinv).
  destruct (Nat.eq_dec (attempt - 1) k) as [Heq|Hne].
  - assert (Hfn : fn (trace w2) p attempt = inl v).
    { replace attempt with (k + 1) by lia. apply fn_succeeds.
      rewrite Hinv2. f_equal. exact Heq. }
    rewrite Hfn. cbn [record trace]. rewrite close_ok.
    split; intros Hr; [|lia]. split; [reflexivity|].
    subst w2; count_events; lia.
  - assert (Hfn : fn (trace w2) p attempt = inr (errs attempt)).
    { pose proof (@fn_fails (trace w2) p (attempt - 1) Hinv2) as H.
      replace (attempt - 1 + 1) with attempt in H by lia.
      apply H. lia. }
    rewrite Hfn.
    destruct (retries <? attempt) eqn:Hlt.
    + apply Nat.ltb_lt in Hlt. split; intros Hr; [lia|].
      replace (retries + 1) with attempt by lia.
      split; [reflexivity|]. subst w2; count_events; lia.
    + apply Nat.ltb_ge in Hlt. apply IH; try lia.
      subst w2; count_events; lia.
Qed.

(** C1, amended. An operation that fails on its first [k] invocations and
    succeeds on invocation [k + 1] is run by [withPage] with [retries]
    retries.  When the browser is launched, and [browser.newPage()],
    [page.setUserAgent()] and the [page.close()] that follows a successful
    operation do not throw: [withPage] returns the operation's result iff
    [k <= retries]; otherwise it throws the error of the last attempt,
    invocation [retries + 1], alone; and the operation is invoked exactly
    [min (k + 1) (retries + 1)] times. *)
Theorem withPage_retry_bound (retries : nat) (w : world) :
  (forall e, browserPromise w <> Some (Some e)) ->
  invocations (trace w) = base ->
  let (res, w') :=
    withPage launch newPage setUserAgent fn close retries w in
  (res = Returned (Some v) <-> k <= retries) /\
  (retries < k -> res = Threw (errs (retries + 1))) /\
  invocations (trace w') = base + Nat.min (k + 1) (retries + 1).
Proof.
  intros Hbrowser Hbase.
  assert (Hloop : forall w0, invocations (trace w0) = base ->
    let (res, w') :=
      attempts_from newPage setUserAgent fn close (retries + 1) retries 1
        w0 in
    (res = Returned (Some v) <-> k <= retries) /\
    (retries < k -> res = Threw (errs (retries + 1))) /\
    invocations (trace w') = base + Nat.min (k + 1) (retries + 1)).
  { intros w0 Hw0.
    pose proof (@attempts_from_retry retries (retries + 1) 1 w0) as H.
    destruct (attempts_from _ _ _ _ _ _ _ _) as [res w'].
    destruct H as [Hle Hgt]; try lia.
    destruct (le_lt_dec k retries) as [Hk|Hk].
    - destruct (Hle Hk) as [-> ->].
      split; [tauto|]. split; [lia|]. f_equal; lia.
    - destruct (Hgt Hk) as [-> ->].
      split; [|split; [reflexivity|f_equal; lia]].
      split; [discriminate|lia]. }
  rewrite withPage_eq.
  destruct (browserPromise w) as [[e|]|].
  - destruct (Hbrowser e); reflexivity.
  - apply Hloop, Hbase.
  - cbv zeta. rewrite launch_ok. apply Hloop.
    cbn [trace]. unfold invocations in *. rewrite count_cons. exact Hbase.
Qed.

End RetryBound.

Section PageRelease.

Variable Res : Type.
Variable launch : history -> option Error.
Variable newPage : history -> option Error.
Variable setUserAgent : history -> page -> option Error.
Variable fn : history -> page -> nat -> Res + Error.
Variable close : history -> page -> option Error.

(** Every execution only appends to the history. *)
Lemma attempts_from_extends (retries : nat) :
  forall n attempt w,
    extends (trace (snd (attempts_from newPage setUserAgent fn close n
                           retries attempt w))) (trace w).
Proof.
  induction n as [|n IH]; intros attempt w.
  - apply extends_refl.
  - rewrite attempts_from_S. cbv zeta.
    assert (Hnext : forall e w', extends (trace w') (trace w) ->
      extends
        (trace (snd (if retries <? attempt
                     then (Threw e, caught close (S (opened (trace w)))
                                      attempt e w')
                     else attempts_from newPage setUserAgent fn close n
                            retries (S attempt)
                            (caught close (S (opened (trace w))) attempt e
                               w'))))
        (trace w)).
    { intros e w' Hw'.
      assert (Hc : extends (trace (caught close (S (opened (trace w)))
                                     attempt e w')) (trace w))
        by (cbn; auto using extends_cons).
      destruct (retries <? attempt); [exact Hc|].
      eapply extends_trans; [apply IH|exact Hc]. }
    destruct (newPage (trace w));
      [cbn; auto using extends_cons, extends_refl|].
    destruct (setUserAgent _ _);
      [apply Hnext; cbn; auto using extends_cons, extends_refl|].
    destruct (fn _ _ _);
      [|apply Hnext; cbn; auto using extends_cons, extends_refl].
    destruct (close _ _);
      [apply Hnext; cbn; auto 6 using extends_cons, extends_refl|].
    cbn; auto 6 using extends_cons, extends_refl.
Qed.

Lemma withPage_extends (retries : nat) (w : world) :
  extends
    (trace (snd (withPage launch newPage setUserAgent fn close retries w)))
    (trace w).
Proof.
  rewrite withPage_eq.
  destruct (browserPromise w) as [[e|]|].
  - apply extends_refl.
  - apply attempts_from_extends.
  - cbv zeta. destruct (launch (trace w)).
    + cbn. auto using extends_cons, extends_refl.
    + eapply extends_trans; [apply attempts_from_extends|].
      cbn. auto using extends_cons, extends_refl.
Qed.

(** A page closes once the operation has returned: the [page.close()] of
    the [try] does not throw. *)
Hypothesis close_ok : forall h p a, close (Invoke p a true :: h) p = None.

(** The errors of everything but [page.close()]. *)
Variable P : Error -> Prop.
Hypothesis launch_P : forall h e, launch h = Some e -> P e.
Hypothesis newPage_P : forall h e, newPage h = Some e -> P e.
Hypothesis setUserAgent_P : forall h p e, setUserAgent h p = Some e -> P e.
Hypothesis fn_P : forall h p a e, fn h p a = inr e -> P e.

Lemma attempts_from_release (retries : nat) :
  forall n attempt w,
    let (res, w') :=
      attempts_from newPage setUserAgent fn close n retries attempt w in
    close_calls (trace w') + opened (trace w)
      = close_calls (trace w) + opened (trace w') /\
    ((forall h, newPage h = None) ->
     newPage_calls (trace w') + opened (trace w)
       = newPage_calls (trace w) + opened (trace w')) /\
    (forall e, res = Threw e -> P e).
Proof.
  induction n as [|n IH]; intros attempt w.
  - cbn. split; [lia|split; [lia|discriminate]].
  - rewrite attempts_from_S. cbv zeta.
    set (p := S (opened (trace w))).
    assert (Hnext : forall e w',
      P e ->
      close_calls (trace w') + opened (trace w)
        = close_calls (trace w) + opened (trace w') - 1 ->
      1 <= close_calls (trace w) + opened (trace w') ->
      ((forall h, newPage h = None) ->
       newPage_calls (trace w') + opened (trace w)
         = newPage_calls (trace w) + opened (trace w')) ->
      let (res, w'') :=
        if retries <? attempt
        then (Threw e, caught close p attempt e w')
        else attempts_from newPage setUserAgent fn close n retries
               (S attempt) (caught close p attempt e w') in
      close_calls (trace w'') + opened (trace w)
        = close_calls (trace w) + opened (trace w'') /\
      ((forall h, newPage h = None) ->
       newPage_calls (trace w'') + opened (trace w)
         = newPage_calls (trace w) + opened (trace w'')) /\
      (forall e, res = Threw e -> P e)).
    { intros e w' He Hc Hpos Hn.
      destruct (retries <? attempt).
      - split; [|split].
        + count_events. lia.
        + intros Hok. specialize (Hn Hok). count_events. lia.
        + intros e' [= <-]. exact He.
      - specialize (IH (S attempt) (caught close p attempt e w')).
        destruct (attempts_from _ _ _ _ _ _ _ _) as [res w''].
        destruct IH as (IH1 & IH2 & IH3). split; [|split].
        + count_events. lia.
        + intros Hok. specialize (Hn Hok). specialize (IH2 Hok).
          count_events. lia.
        + exact IH3. }
    destruct (newPage (trace w)) as [e|] eqn:Hnew.
    { split; [|split].
      - count_events. lia.
      - intros Hok. rewrite Hok in Hnew. discriminate.
      - intros e' [= <-]. eapply newPage_P, Hnew. }
    destruct (setUserAgent _ _) as [e|] eqn:Hua.
    { apply Hnext.
      - eapply setUserAgent_P, Hua.
      - count_events. lia.
      - count_events. lia.
      - intros _. count_events. lia. }
    destruct (fn _ _ _) as [v|e] eqn:Hfn.
    2:{ apply Hnext.
      - eapply fn_P, Hfn.
      - count_events. lia.
      - count_events. lia.
      - intros _. count_events. lia. }
    cbn [record trace]. rewrite close_ok.
    split; [|split].
    + count_events. lia.
    + intros _. count_events. lia.
    + discriminate.
Qed.

(** C2, amended. Whatever the operation does on each attempt, as long as
    the [page.close()] that follows a successful operation does not throw:
    an execution of [withPage] calls [page.close()] as many times as it
    opens pages, which is as many times as it calls [newPage] when
    [newPage] does not throw; and an error of the [page.close()] of the
    failure path is swallowed, so the error [withPage] throws is never one
    of [page.close()]: it has every property [P] shared by the errors of
    the launch (the kept rejection of an earlier launch included), of
    [newPage], of [setUserAgent] and of the operation. *)
Theorem withPage_pages_released (retries : nat) (w : world) :
  (forall e, browserPromise w = Some (Some e) -> P e) ->
  let (res, w') :=
    withPage launch newPage setUserAgent fn close retries w in
  exists new,
    trace w' = new ++ trace w /\
    close_calls new = opened new /\
    ((forall h, newPage h = None) -> newPage_calls new = close_calls new) /\
    (forall e, res = Threw e -> P e).
Proof.
  intros Hkept.
  pose proof (withPage_extends retries w) as [new Hnew].
  assert (H : let (res, w') :=
                withPage launch newPage setUserAgent fn close retries w in
              close_calls (trace w') + opened (trace w)
                = close_calls (trace w) + opened (trace w') /\
              ((forall h, newPage h = None) ->
               newPage_calls (trace w') + opened (trace w)
                 = newPage_calls (trace w) + opened (trace w')) /\
              (forall e, res = Threw e -> P e)).
  { rewrite withPage_eq.
    destruct (browserPromise w) as [[e|]|] eqn:Hb.
    - split; [lia|split; [lia|]].
      intros e' [= <-]. apply Hkept. reflexivity.
    - apply attempts_from_release.
    - cbv zeta. destruct (launch (trace w)) as [e|] eqn:Hl.
      + split; [count_events; lia|split; [intros _; count_events; lia|]].
        intros e' [= <-]. eapply launch_P, Hl.
      + pose proof (attempts_from_release retries (retries + 1) 1
          {| browserPromise := Some None;
             trace := Launch (is_none (@None Error)) :: trace w |}) as H.
        destruct (attempts_from _ _ _ _ _ _ _ _) as [res w'].
        destruct H as (H1 & H2 & H3).
        split; [count_events; lia|split; [|exact H3]].
        intros Hok. specialize (H2 Hok). count_events; lia. }
  destruct (withPage _ _ _ _ _ _ _) as [res w']. cbn [snd] in Hnew.
  destruct H as (H1 & H2 & H3).
  exists new. split; [exact Hnew|]. rewrite Hnew in H1, H2.
  unfold close_calls, opened, newPage_calls in *.
  rewrite !count_app in H1, H2.
  split; [lia|split; [|exact H3]].
  intros Hok. specialize (H2 Hok). lia.
Qed.

End PageRelease.

Section NewPageFailure.

Variable Res : Type.
Variable launch : history -> option Error.
Variable newPage : history -> option Error.
Variable setUserAgent : history -> page -> option Error.
Variable fn : history -> page -> nat -> Res + Error.
Variable close : history -> page -> option Error.

Lemma attempts_from_newPage_failure (retries : nat) :
  forall n attempt w,
    let (res, w') :=
      attempts_from newPage setUserAgent fn close n retries attempt w in
    ends_in_newPage_failure newPage w res w'.
Proof.
  induction n as [|n IH]; intros attempt w.
  - right. reflexivity.
  - rewrite attempts_from_S. cbv zeta.
    set (p := S (opened (trace w))).
    assert (Hnext : forall e w',
      extends (trace w') (trace w) ->
      newPage_failures (trace w') = newPage_failures (trace w) ->
      let (res, w'') :=
        if retries <? attempt
        then (Threw e, caught close p attempt e w')
        else attempts_from newPage setUserAgent fn close n retries
               (S attempt) (caught close p attempt e w') in
      ends_in_newPage_failure newPage w res w'').
    { intros e w' Hext Hcount.
      assert (Hext' : extends (trace (caught close p attempt e w'))
                        (trace w))
        by (cbn; auto using extends_cons).
      assert (Hcount' : newPage_failures (trace (caught close p attempt e w'))
                        = newPage_failures (trace w))
        by (unfold newPage_failures in *; count_events; lia).
      destruct (retries <? attempt); [right; exact Hcount'|].
      specialize (IH (S attempt) (caught close p attempt e w')).
      destruct (attempts_from _ _ _ _ _ _ _ _) as [res w''].
      destruct IH as [(h & e' & Ht & Hh & Hn & Hr)|IH].
      - left. exists h, e'. repeat split; auto.
        eapply extends_trans; eassumption.
      - right. congruence. }
    destruct (newPage (trace w)) as [e|] eqn:Hnew.
    { left. exists (trace w), e. repeat split; auto using extends_refl. }
    destruct (setUserAgent _ _).
    { apply Hnext; [cbn; auto using extends_cons, extends_refl|].
      unfold newPage_failures; count_events; lia. }
    destruct (fn _ _ _).
    2:{ apply Hnext; [cbn; auto using extends_cons, extends_refl|].
        unfold newPage_failures; count_events; lia. }
    destruct (close _ _).
    { apply Hnext; [cbn; auto 6 using extends_cons, extends_refl|].
      unfold newPage_failures; count_events; lia. }
    right. unfold newPage_failures; count_events; lia.
Qed.

(** C3, amended. When [browser.newPage()] throws during an attempt of
    [withPage], whatever the number of retries, the failure goes to the
    caller at once: that call is the last event of the execution, so no
    retry follows, and [withPage] throws the error of [newPage]. *)
Theorem withPage_newPage_failure_propagates (retries : nat) (w : world) :
  let (res, w') :=
    withPage launch newPage setUserAgent fn close retries w in
  forall new,
    trace w' = new ++ trace w ->
    In (NewPage false) new ->
    exists h e,
      new = NewPage false :: h /\
      newPage (h ++ trace w) = Some e /\
      res = Threw e.
Proof.
  assert (H : let (res, w') :=
                withPage launch newPage setUserAgent fn close retries w in
              ends_in_newPage_failure newPage w res w').
  { rewrite withPage_eq.
    destruct (browserPromise w) as [[e|]|].
    - right. reflexivity.
    - apply attempts_from_newPage_failure.
    - cbv zeta. destruct (launch (trace w)).
      + right. unfold newPage_failures; count_events; lia.
      + pose proof (attempts_from_newPage_failure retries (retries + 1) 1
          {| browserPromise := Some None;
             trace := Launch (is_none (@None Error)) :: trace w |}) as H.
        destruct (attempts_from _ _ _ _ _ _ _ _) as [res w'].
        destruct H as [(h & e' & Ht & Hh & Hn & Hr)|H].
        * left. exists h, e'. repeat split; auto.
          eapply extends_trans; [exact Hh|].
          cbn. auto using extends_cons, extends_refl.
        * right. rewrite H. unfold newPage_failures; count_events; lia. }
  destruct (withPage _ _ _ _ _ _ _) as [res w'].
  intros new Hnew Hin.
  destruct H as [(h & e & Ht & [l ->] & Hn & Hr)|H].
  - exists l, e. repeat split; auto.
    rewrite Hnew in Ht. change (new ++ trace w = (NewPage false :: l) ++ trace w) in Ht.
    apply app_inv_tail in Ht. exact Ht.
  - exfalso. rewrite Hnew in H. unfold newPage_failures in H.
    rewrite count_app in H.
    assert (0 < count is_newPage_failure new).
    { clear -Hin. induction new as [|ev new IH]; [destruct Hin|].
      rewrite count_cons. destruct Hin as [->|Hin]; [cbn; lia|].
      specialize (IH Hin). lia. }
    lia.
Qed.

End NewPageFailure.

(** C3, as stated, fails: with two retries and a browser whose first
    [newPage()] throws (the next ones would not), [withPage] throws that
    error after one [newPage] call, and the operation is never invoked. *)
Lemma withPage_newPage_not_retried :
  let (res, w') :=
    withPage healthy newPage_fails_once healthy_page (flaky 0 7) healthy_page
      2 init_world in
  res = Threw (mkError "Protocol error") /\
  newPage_calls (trace w') = 1 /\
  invocations (trace w') = 0 /\
  newPage_fails_once (trace w') = None.
Proof. cbv. repeat split. Qed.

(** C3, amended, at that instance. *)
Lemma withPage_newPage_failure_propagates_witness :
  exists h e,
    [NewPage false; Launch true] = NewPage false :: h /\
    newPage_fails_once (h ++ trace init_world) = Some e /\
    fst (withPage healthy newPage_fails_once healthy_page (flaky 0 7)
           healthy_page 2 init_world) = Threw e.
Proof.
  pose proof (@withPage_newPage_failure_propagates nat healthy
                newPage_fails_once healthy_page (flaky 0 7) healthy_page 2
                init_world) as H.
  destruct (withPage _ _ _ _ _ _ _) as [res w'] eqn:Hrun.
  apply H.
  - injection Hrun as _ <-. reflexivity.
  - left. reflexivity.
Defined.

(** C1, as stated, fails: the operation never fails ([k = 0]), and the
    first [page.close()] throws.  Without a retry [withPage] throws the error
    of [page.close()], not a result, though [k <= retries]; with two retries
    it returns the result of a second invocation, where
    [min (k + 1) (retries + 1)] is 1. *)
Lemma withPage_retry_bound_close_throws :
  let (res0, w0) :=
    withPage healthy healthy healthy_page (flaky 0 7) close_fails_once 0
      init_world in
  let (res2, w2) :=
    withPage healthy healthy healthy_page (flaky 0 7) close_fails_once 2
      init_world in
  (forall h p a, flaky 0 7 h p a = inl 7) /\
  res0 = Threw (mkError "Target closed") /\
  invocations (trace w0) = 1 /\
  res2 = Returned (Some 7) /\
  invocations (trace w2) = 2 /\
  Nat.min (0 + 1) (2 + 1) = 1.
Proof. cbv. repeat split. Qed.

(** C1, amended, at two instances: an operation that counts its
    invocations, two failures, then 42, with two retries; and an operation
    that reads its attempt, three failures, with one retry. *)
Lemma withPage_retry_bound_witness :
  (let (res, w') :=
     withPage healthy healthy healthy_page (flaky 2 42) healthy_page 2
       init_world in
   (res = Returned (Some 42) <-> 2 <= 2) /\
   (2 < 2 -> res = Threw (timeout_of (2 + 1))) /\
   invocations (trace w') = 0 + Nat.min (2 + 1) (2 + 1)) /\
  (let (res, w') :=
     withPage healthy healthy healthy_page (by_attempt 3 42) healthy_page 1
       init_world in
   (res = Returned (Some 42) <-> 3 <= 1) /\
   (1 < 3 -> res = Threw (timeout_of (1 + 1))) /\
   invocations (trace w') = 0 + Nat.min (3 + 1) (1 + 1)).
Proof.
  split.
  - apply (@withPage_retry_bound nat healthy healthy healthy_page (flaky 2 42)
             healthy_page 2 0 42 timeout_of).
    + intros h p i Hi Hlt. unfold flaky. rewrite Hi.
      destruct i as [|[|i]]; [reflexivity|reflexivity|lia].
    + intros h p Hk. unfold flaky. rewrite Hk. reflexivity.
    + reflexivity.
    + reflexivity.
    + reflexivity.
    + reflexivity.
    + intros e; discriminate.
    + reflexivity.
  - apply (@withPage_retry_bound nat healthy healthy healthy_page
             (by_attempt 3 42) healthy_page 3 0 42 timeout_of).
    + intros h p i Hi Hlt. unfold by_attempt.
      destruct i as [|[|[|i]]]; [reflexivity|reflexivity|reflexivity|lia].
    + reflexivity.
    + reflexivity.
    + reflexivity.
    + reflexivity.
    + reflexivity.
    + intros e; discriminate.
    + reflexivity.
Defined.

(** The same operation with one retry only: the second error comes out. *)
Example withPage_two_failures_one_retry :
  fst (withPage healthy healthy healthy_page (flaky 2 42) healthy_page 1
         init_world) = Threw (timeout_of 2).
Proof. reflexivity. Qed.

(** C2, as stated, fails: the operation succeeds, the [page.close()] of the
    [try] throws, the [catch] closes the page again; one [newPage] call, two
    [page.close()] calls, and the error thrown is the one of
    [page.close()]. *)
Lemma withPage_close_twice :
  let (res, w') :=
    withPage healthy healthy healthy_page (flaky 0 7) close_fails_once 0
      init_world in
  res = Threw (mkError "Target closed") /\
  newPage_calls (trace w') = 1 /\
  close_calls (trace w') = 2 /\
  newPage_calls (trace w') <> close_calls (trace w').
Proof. cbv. repeat split. discriminate. Qed.

(** C2, amended, at an instance: the operation fails twice and [page.close()]
    throws in each [catch]; the error thrown is a navigation timeout. *)
Lemma withPage_pages_released_witness :
  let (res, w') :=
    withPage healthy healthy healthy_page (flaky 2 42) close_fails_in_catch 1
      init_world in
  exists new,
    trace w' = new ++ trace init_world /\
    close_calls new = opened new /\
    ((forall h, healthy h = None) -> newPage_calls new = close_calls new) /\
    (forall e, res = Threw e -> e <> mkError "Target closed").
Proof.
  apply (@withPage_pages_released nat healthy healthy healthy_page
           (flaky 2 42) close_fails_in_catch).
  - reflexivity.
  - discriminate.
  - discriminate.
  - discriminate.
  - intros h p a e. unfold flaky.
    destruct (invocations h <? 2); [|discriminate].
    intros [= <-]. discriminate.
  - discriminate.
Defined.

(** *** Bounds and shapes of every execution *)

Ltac count_all :=
  unfold invocations, newPage_calls, opened, close_calls, launch_calls,
    caught, record in *;
  cbn [trace] in *;
  repeat rewrite count_cons in *;
  cbn [is_invoke is_newPage is_opened is_close is_launch] in *.

Section EveryExecution.

Variable Res : Type.
Variable launch : history -> option Error.
Variable newPage : history -> option Error.
Variable setUserAgent : history -> page -> option Error.
Variable fn : history -> page -> nat -> Res + Error.
Variable close : history -> page -> option Error.

#[local] Abbreviation attempts_from :=
  (attempts_from newPage setUserAgent fn close).
#[local] Abbreviation withPage :=
  (withPage launch newPage setUserAgent fn close).

Lemma attempts_from_within (retries : nat) :
  forall n attempt w,
    within n w (snd (attempts_from n retries attempt w)).
Proof.
  induction n as [|n IH]; intros attempt w.
  - cbn. unfold within. repeat split; lia.
  - rewrite attempts_from_S. cbv zeta.
    set (p := S (opened (trace w))).
    assert (Hnext : forall e w',
      newPage_calls (trace w') = newPage_calls (trace w) + 1 ->
      opened (trace w') = opened (trace w) + 1 ->
      invocations (trace w') <= invocations (trace w) + 1 ->
      close_calls (trace w) <= close_calls (trace w') <=
        close_calls (trace w) + 1 ->
      launch_calls (trace w') = launch_calls (trace w) ->
      browserPromise w' = browserPromise w ->
      within (S n) w
        (snd (if retries <? attempt
              then (Threw e, caught close p attempt e w')
              else attempts_from n retries (S attempt)
                     (caught close p attempt e w')))).
    { intros e w' H1 H2 H3 H4 H5 H6.
      destruct (retries <? attempt).
      - cbn [snd]. unfold within. count_all; cbn [browserPromise].
        repeat split; try lia. exact H6.
      - specialize (IH (S attempt) (caught close p attempt e w')).
        destruct (attempts_from n retries (S attempt) _) as [res w''].
        cbn [snd] in *. unfold within in *.
        destruct IH as (I1 & I2 & I3 & I4 & I5 & I6).
        count_all; cbn [browserPromise] in *.
        repeat split; try lia. congruence. }
    destruct (newPage (trace w)) as [e|].
    { cbn [snd]. unfold within. count_all; cbn [browserPromise].
      repeat split; lia. }
    destruct (setUserAgent _ _) as [e|].
    { apply Hnext; count_all; cbn [browserPromise]; (lia || reflexivity). }
    destruct (fn _ _ _) as [v|e].
    2:{ apply Hnext; count_all; cbn [browserPromise]; (lia || reflexivity). }
    destruct (close _ _) as [e|].
    { apply Hnext; count_all; cbn [browserPromise]; (lia || reflexivity). }
    cbn [snd]. unfold within. count_all; cbn [browserPromise].
    repeat split; lia.
Qed.

Lemma withPage_within (retries : nat) (w : world) :
  let w' := snd (withPage retries w) in
  newPage_calls (trace w') <= newPage_calls (trace w) + (retries + 1) /\
  invocations (trace w') + opened (trace w)
    <= invocations (trace w) + opened (trace w') /\
  opened (trace w') + close_calls (trace w)
    <= opened (trace w) + close_calls (trace w') /\
  close_calls (trace w') + 2 * opened (trace w)
    <= close_calls (trace w) + 2 * opened (trace w').
Proof.
  cbv zeta. rewrite withPage_eq.
  destruct (browserPromise w) as [[e|]|].
  - cbn [snd]. repeat split; lia.
  - destruct (attempts_from_within retries (retries + 1) 1 w)
      as (H1 & H2 & H3 & H4 & _). repeat split; assumption.
  - cbv zeta. destruct (launch (trace w)) as [e|].
    + cbn [snd]. count_all. repeat split; lia.
    + match goal with
      | |- context [attempts_from ?n ?r ?a ?w0] =>
          destruct (attempts_from_within r n a w0) as (H1 & H2 & H3 & H4 & _)
      end.
      count_all. repeat split; lia.
Qed.

(** The events that an execution adds, with their counts. *)
Lemma withPage_new_events (retries : nat) (w : world) :
  exists new,
    trace (snd (withPage retries w)) = new ++ trace w /\
    newPage_calls new <= retries + 1 /\
    invocations new <= opened new /\
    opened new <= close_calls new /\
    close_calls new <= 2 * opened new.
Proof.
  destruct (withPage_extends launch newPage setUserAgent fn close retries w)
    as [new Hnew].
  pose proof (withPage_within retries w) as H. cbv zeta in H.
  rewrite Hnew in H.
  unfold newPage_calls, invocations, opened, close_calls in *.
  rewrite !count_app in H.
  exists new. split; [exact Hnew|]. lia.
Qed.

Ltac page_counts :=
  unfold page_use, invocations_on, closes_on, opened, caught, record in *;
  cbn [trace] in *;
  repeat rewrite count_cons in *;
  cbn [is_invoke_on is_close_on is_opened] in *.

(** The loop, page by page. *)
Lemma attempts_from_page_use (retries : nat) (p : page) :
  forall n attempt w,
    page_use w (snd (attempts_from n retries attempt w)) p.
Proof.
  induction n as [|n IH]; intros attempt w.
  - cbn. unfold page_use. lia.
  - rewrite attempts_from_S. cbv zeta.
    set (p0 := S (opened (trace w))).
    assert (Hnext : forall e w1,
      opened (trace w1) = opened (trace w) + 1 ->
      (p0 = p ->
       invocations_on p (trace w1) <= invocations_on p (trace w) + 1 /\
       closes_on p (trace w) <= closes_on p (trace w1)
         <= closes_on p (trace w) + 1) ->
      (p0 <> p ->
       invocations_on p (trace w1) = invocations_on p (trace w) /\
       closes_on p (trace w1) = closes_on p (trace w)) ->
      page_use w
        (snd (if retries <? attempt
              then (Threw e, caught close p0 attempt e w1)
              else attempts_from n retries (S attempt)
                     (caught close p0 attempt e w1))) p).
    { intros e w1 Ho Hsame Hother.
      assert (Hc : opened (trace (caught close p0 attempt e w1))
                   = opened (trace w) + 1 /\
                   invocations_on p (trace (caught close p0 attempt e w1))
                   = invocations_on p (trace w1) /\
                   closes_on p (trace (caught close p0 attempt e w1))
                   = (if p0 =? p then 1 else 0) + closes_on p (trace w1)).
      { page_counts. repeat split; lia. }
      destruct Hc as (Hc1 & Hc2 & Hc3).
      destruct (retries <? attempt).
      - cbn [snd]. unfold page_use. rewrite Hc1, Hc2, Hc3.
        subst p0. destruct (Nat.eqb_spec (S (opened (trace w))) p); lia.
      - specialize (IH (S attempt) (caught close p0 attempt e w1)).
        destruct (attempts_from n retries (S attempt) _) as [res w'].
        cbn [snd] in *. unfold page_use in *.
        rewrite Hc1, Hc2, Hc3 in IH.
        subst p0. destruct (Nat.eqb_spec (S (opened (trace w))) p); lia. }
    destruct (newPage (trace w)) as [e|].
    { cbn [snd]. page_counts. lia. }
    destruct (setUserAgent _ _) as [e|].
    { apply Hnext; page_counts; lia. }
    destruct (fn _ _ _) as [v|e].
    2:{ apply Hnext; page_counts; [lia| |];
        intros Hp; subst p0;
        destruct (Nat.eqb_spec (S (count is_opened (trace w))) p); lia. }
    destruct (close _ _) as [e|].
    { apply Hnext; page_counts; [lia| |];
        intros Hp; subst p0;
        destruct (Nat.eqb_spec (S (count is_opened (trace w))) p); lia. }
    cbn [snd]. page_counts. subst p0.
    destruct (Nat.eqb_spec (S (count is_opened (trace w))) p); lia.
Qed.

Lemma withPage_page_use (retries : nat) (w : world) (p : page) :
  page_use w (snd (withPage retries w)) p.
Proof.
  rewrite withPage_eq.
  destruct (browserPromise w) as [[e|]|].
  - cbn [snd]. unfold page_use. lia.
  - apply attempts_from_page_use.
  - cbv zeta. destruct (launch (trace w)) as [e|].
    + cbn [snd]. page_counts. lia.
    + match goal with
      | |- context [attempts_from ?n ?r ?a ?w0] =>
          pose proof (attempts_from_page_use r p n a w0) as H
      end.
      page_counts. exact H.
Qed.

(** The events that an execution adds, page by page. *)
Lemma withPage_new_events_on (retries : nat) (w : world) (new : history)
    (p : page) :
  trace (snd (withPage retries w)) = new ++ trace w ->
  (opened_by (trace w) new p ->
   invocations_on p new <= 1 /\ 1 <= closes_on p new <= 2) /\
  (~ opened_by (trace w) new p ->
   invocations_on p new = 0 /\ closes_on p new = 0).
Proof.
  intros Hnew. pose proof (withPage_page_use retries w p) as H.
  unfold page_use, opened_by in *. rewrite Hnew in H.
  unfold invocations_on, closes_on, opened in *.
  rewrite !count_app in H. lia.
Qed.

(** X1. Whatever the browser and the operation do, an execution of
    [withPage] with [retries] retries calls [newPage] at most
    [retries + 1] times; it calls the operation at most once on each page,
    and only on pages that it opened itself, so at most [retries + 1]
    times. *)
Theorem withPage_attempt_bound (retries : nat) (w : world) :
  let (res, w') := withPage retries w in
  exists new,
    trace w' = new ++ trace w /\
    newPage_calls new <= retries + 1 /\
    (forall p, invocations_on p new <= 1) /\
    (forall p, invocations_on p new = 1 -> opened_by (trace w) new p) /\
    invocations new <= retries + 1.
Proof.
  destruct (withPage_new_events retries w) as (new & Hnew & H1 & H2 & _).
  pose proof (fun p => @withPage_new_events_on retries w new p Hnew) as Hon.
  destruct (withPage retries w) as [res w']. cbn [snd] in Hnew.
  exists new. split; [exact Hnew|]. split; [exact H1|].
  split; [|split].
  - intros p. destruct (Hon p) as [Hin Hout].
    unfold opened_by in *.
    destruct (le_lt_dec p (opened (trace w))) as [Hle|Hgt];
      [destruct Hout as [-> _]; lia|].
    destruct (le_lt_dec p (opened (trace w) + opened new)) as [Hle|Hgt'];
      [apply Hin; lia|destruct Hout as [-> _]; lia].
  - intros p Hp. destruct (Hon p) as [_ Hout]. unfold opened_by in *.
    destruct (le_lt_dec p (opened (trace w))) as [Hle|Hgt];
      [destruct Hout as [Hz _]; lia|].
    destruct (le_lt_dec p (opened (trace w) + opened new)) as [Hle|Hgt'];
      [lia|destruct Hout as [Hz _]; lia].
  - assert (opened new <= newPage_calls new); [|lia].
    clear. induction new as [|[] new IH]; unfold opened, newPage_calls in *;
      rewrite ?count_cons; cbn [is_opened is_newPage]; try lia.
    + cbn. lia.
    + destruct ok; lia.
Qed.

(** X2. Whatever the browser and the operation do, every page that an
    execution of [withPage] opens gets a call of [close()] from it, and at
    most two; the execution closes no other page. *)
Theorem withPage_every_page_closed (retries : nat) (w : world) :
  let (res, w') := withPage retries w in
  exists new,
    trace w' = new ++ trace w /\
    (forall p, opened_by (trace w) new p -> 1 <= closes_on p new <= 2) /\
    (forall p, ~ opened_by (trace w) new p -> closes_on p new = 0) /\
    opened new <= close_calls new <= 2 * opened new.
Proof.
  destruct (withPage_new_events retries w) as (new & Hnew & _ & _ & H3 & H4).
  pose proof (fun p => @withPage_new_events_on retries w new p Hnew) as Hon.
  destruct (withPage retries w) as [res w']. cbn [snd] in Hnew.
  exists new. split; [exact Hnew|]. split; [|split; [|split; assumption]].
  - intros p Hp. apply (Hon p), Hp.
  - intros p Hp. apply (Hon p), Hp.
Qed.

Lemma attempts_from_defined (retries : nat) :
  forall n attempt w,
    1 <= n -> attempt + n = retries + 2 ->
    fst (attempts_from n retries attempt w) <> Returned None.
Proof.
  induction n as [|n IH]; intros attempt w Hn Hsum; [lia|].
  rewrite attempts_from_S. cbv zeta.
  assert (Hnext : forall e w',
    fst (if retries <? attempt
         then (Threw e, caught close (S (opened (trace w))) attempt e w')
         else attempts_from n retries (S attempt)
                (caught close (S (opened (trace w))) attempt e w'))
    <> Returned None).
  { intros e w'. destruct (Nat.ltb_spec retries attempt).
    - discriminate.
    - apply IH; lia. }
  destruct (newPage (trace w)); [discriminate|].
  destruct (setUserAgent _ _); [apply Hnext|].
  destruct (fn _ _ _); [|apply Hnext].
  destruct (close _ _); [apply Hnext|discriminate].
Qed.

Lemma attempts_from_returned (retries : nat) (v : Res) :
  forall n attempt w,
    fst (attempts_from n retries attempt w) = Returned (Some v) ->
    returned_cleanly fn close v (trace (snd (attempts_from n retries attempt w))).
Proof.
  induction n as [|n IH]; intros attempt w; [discriminate|].
  rewrite attempts_from_S. cbv zeta.
  assert (Hnext : forall e w',
    fst (if retries <? attempt
         then (Threw e, caught close (S (opened (trace w))) attempt e w')
         else attempts_from n retries (S attempt)
                (caught close (S (opened (trace w))) attempt e w'))
      = Returned (Some v) ->
    returned_cleanly fn close v
      (trace (snd (if retries <? attempt
         then (Threw e, caught close (S (opened (trace w))) attempt e w')
         else attempts_from n retries (S attempt)
                (caught close (S (opened (trace w))) attempt e w'))))).
  { intros e w'. destruct (retries <? attempt); [discriminate|apply IH]. }
  destruct (newPage (trace w)); [discriminate|].
  destruct (setUserAgent _ _); [apply Hnext|].
  destruct (fn _ _ _) as [v'|e] eqn:Hfn; [|apply Hnext].
  destruct (close _ _) eqn:Hclose; [apply Hnext|].
  cbn [fst snd]. intros [= ->].
  eexists _, _, _. split; [reflexivity|]. split; [exact Hfn|exact Hclose].
Qed.

(** X3. [withPage] never returns [undefined]: it returns a result of the
    operation or it throws.  The result it returns is the one of the last
    call of the operation, and the page of this call was closed without an
    error just after it. *)
Theorem withPage_returns_last_result (retries : nat) (w : world) :
  let (res, w') := withPage retries w in
  res <> Returned None /\
  forall v, res = Returned (Some v) -> returned_cleanly fn close v (trace w').
Proof.
  rewrite withPage_eq.
  assert (Hloop : forall w0,
    let (res, w') := attempts_from (retries + 1) retries 1 w0 in
    res <> Returned None /\
    forall v, res = Returned (Some v) -> returned_cleanly fn close v (trace w')).
  { intros w0.
    pose proof (@attempts_from_defined retries (retries + 1) 1 w0) as Hd.
    pose proof (fun v => @attempts_from_returned retries v (retries + 1) 1 w0)
      as Hr.
    destruct (attempts_from (retries + 1) retries 1 w0) as [res w'].
    split; [apply Hd; lia|exact Hr]. }
  destruct (browserPromise w) as [[e|]|].
  - split; discriminate.
  - apply Hloop.
  - cbv zeta. destruct (launch (trace w)); [split; discriminate|apply Hloop].
Qed.

(** *** The shared browser *)

#[local] Abbreviation withPage_all :=
  (withPage_all launch newPage setUserAgent fn close).

Lemma withPage_launches (retries : nat) (w : world) :
  let w' := snd (withPage retries w) in
  browserPromise w' <> None /\
  launch_calls (trace w')
  = launch_calls (trace w)
    + match browserPromise w with Some _ => 0 | None => 1 end /\
  (browserPromise w <> None -> browserPromise w' = browserPromise w).
Proof.
  cbv zeta. rewrite withPage_eq.
  destruct (browserPromise w) as [[e|]|] eqn:Hb.
  - cbn [snd]. rewrite Hb. repeat split; (discriminate || lia).
  - destruct (attempts_from_within retries (retries + 1) 1 w)
      as (_ & _ & _ & _ & H5 & H6).
    rewrite H6, Hb, H5. repeat split; (discriminate || lia).
  - cbv zeta. destruct (launch (trace w)) as [e|].
    + cbn [snd browserPromise]. count_all.
      repeat split; (discriminate || lia || tauto).
    + match goal with
      | |- context [attempts_from ?n ?r ?a ?w0] =>
          destruct (attempts_from_within r n a w0) as (_ & _ & _ & _ & H5 & H6)
      end.
      rewrite H6, H5. cbn [browserPromise]. count_all.
      repeat split; (discriminate || lia || tauto).
Qed.

(** X4. The browser is launched once: over any number of executions of
    [withPage], one after the other from the initial state of the module,
    [puppeteer.launch] is called once, by the first of them. *)
Theorem single_browser_launch (rs : list nat) :
  launch_calls (trace (snd (withPage_all rs init_world)))
  = match rs with [] => 0 | _ :: _ => 1 end.
Proof.
  assert (Hlater : forall rs w,
    browserPromise w <> None ->
    launch_calls (trace (snd (withPage_all rs w))) = launch_calls (trace w)).
  { clear rs. induction rs as [|r rs IH]; intros w Hb; [reflexivity|].
    cbn [Launcher.withPage_all].
    pose proof (withPage_launches r w) as H. cbv zeta in H.
    destruct (withPage r w) as [c w1]. cbn [snd] in H.
    destruct H as (Hb1 & Hl & _).
    specialize (IH w1 Hb1).
    destruct (withPage_all rs w1) as [cs w2]. cbn [snd] in *.
    rewrite IH, Hl. destruct (browserPromise w); [lia|congruence]. }
  destruct rs as [|r rs]; [reflexivity|].
  cbn [Launcher.withPage_all].
  pose proof (withPage_launches r init_world) as H. cbv zeta in H.
  destruct (withPage r init_world) as [c w1]. cbn [snd] in H.
  destruct H as (Hb1 & Hl & _).
  specialize (Hlater rs w1 Hb1).
  destruct (withPage_all rs w1) as [cs w2]. cbn [snd] in *.
  rewrite Hlater, Hl. reflexivity.
Qed.

(** X5. A launch that fails is never tried again: when the first launch is
    rejected with [e], the execution that made it throws [e] without a call
    to [newPage], and every later execution throws [e] again and does
    nothing else. *)
Theorem failed_launch_is_kept (retries : nat) (rs : list nat) (w : world)
    (e : Error) :
  browserPromise w = None ->
  launch (trace w) = Some e ->
  let (res, w1) := withPage retries w in
  res = Threw e /\
  trace w1 = Launch false :: trace w /\
  withPage_all rs w1 = (map (fun _ => Threw e) rs, w1).
Proof.
  intros Hb Hl. rewrite withPage_eq, Hb. cbv zeta. rewrite Hl.
  split; [reflexivity|]. split; [reflexivity|].
  induction rs as [|r rs IH]; [reflexivity|].
  cbn [Launcher.withPage_all map]. rewrite withPage_eq.
  cbn [browserPromise]. rewrite IH. reflexivity.
Qed.

End EveryExecution.

Section CloseAfterSuccess.

Variable Res : Type.
Variable launch : history -> option Error.
Variable newPage : history -> option Error.
Variable setUserAgent : history -> page -> option Error.
Variable fn : history -> page -> nat -> Res + Error.
Variable close : history -> page -> option Error.

(** The browser works and the operation returns every time, but the page
    does not close after it: [close()] throws [e]. *)
Variable e : Error.
Hypothesis launch_ok : forall h, launch h = None.
Hypothesis newPage_ok : forall h, newPage h = None.
Hypothesis setUserAgent_ok : forall h p, setUserAgent h p = None.
Hypothesis fn_returns : forall h p a, exists v, fn h p a = inl v.
Hypothesis close_fails : forall h p a, close (Invoke p a true :: h) p = Some e.

Lemma attempts_from_close_fails (retries : nat) :
  forall n attempt w,
    1 <= n -> attempt + n = retries + 2 ->
    let (res, w') :=
      attempts_from newPage setUserAgent fn close n retries attempt w in
    res = Threw e /\
    invocations (trace w') = invocations (trace w) + n.
Proof.
  induction n as [|n IH]; intros attempt w Hn Hsum; [lia|].
  rewrite attempts_from_S, newPage_ok. cbv zeta. rewrite setUserAgent_ok.
  match goal with
  | |- context [fn ?h ?p ?a] => destruct (fn_returns h p a) as [v ->]
  end.
  cbn [record trace]. rewrite close_fails.
  destruct (Nat.ltb_spec retries attempt) as [Hlast|Hmore].
  - split; [reflexivity|]. count_all. lia.
  - match goal with
    | |- context [attempts_from _ _ _ _ n retries (S attempt) ?w0] =>
        specialize (IH (S attempt) w0);
        destruct (attempts_from newPage setUserAgent fn close n retries
                    (S attempt) w0) as [res w']
    end.
    destruct IH as [-> Hinv]; try lia.
    split; [reflexivity|]. rewrite Hinv. count_all. lia.
Qed.

(** X6. The [page.close()] of the success path is inside the [try]: when
    the operation returns on every attempt but the page throws [e] on this
    [close()], [withPage] drops each result, calls the operation again until
    the attempts are used up, [retries + 1] calls in all, and throws [e]. *)
Theorem success_lost_when_close_fails (retries : nat) (w : world) :
  (forall e', browserPromise w <> Some (Some e')) ->
  let (res, w') :=
    withPage launch newPage setUserAgent fn close retries w in
  res = Threw e /\
  invocations (trace w') = invocations (trace w) + (retries + 1).
Proof.
  intros Hb. rewrite withPage_eq.
  destruct (browserPromise w) as [[e'|]|].
  - destruct (Hb e'); reflexivity.
  - apply attempts_from_close_fails; lia.
  - cbv zeta. rewrite launch_ok.
    match goal with
    | |- context [attempts_from _ _ _ _ ?n ?r ?a ?w0] =>
        pose proof (@attempts_from_close_fails r n a w0) as H;
        destruct (attempts_from newPage setUserAgent fn close n r a w0)
          as [res w']
    end.
    destruct H as [-> Hinv]; try lia.
    split; [reflexivity|]. rewrite Hinv. count_all. lia.
Qed.

End CloseAfterSuccess.

(** X6, at an instance: two retries, three calls of the operation. *)
Lemma success_lost_when_close_fails_witness :
  let (res, w') :=
    withPage healthy healthy healthy_page always_7 close_fails_after_success
      2 init_world in
  res = Threw (mkError "Target closed") /\
  invocations (trace w') = invocations (trace init_world) + (2 + 1).
Proof.
  apply (@success_lost_when_close_fails nat healthy healthy healthy_page
           always_7 close_fails_after_success (mkError "Target closed")).
  - reflexivity.
  - reflexivity.
  - reflexivity.
  - intros h p a. exists 7. reflexivity.
  - reflexivity.
  - discriminate.
Defined.

Section ScraperSpec.

Variable Jobs : Type.
Variable encodeURIComponent : string -> string + Error.
Variable goto : history -> page -> string -> option Error.
Variable evaluate : history -> page -> Jobs + Error.
Variable launch : history -> option Error.
Variable newPage : history -> option Error.
Variable setUserAgent : history -> page -> option Error.
Variable close : history -> page -> option Error.


End ScraperSpec.

(** The site answers on the second navigation: its two jobs come back. *)
Example scrapeExamplePortal_second_attempt :
  fst (scrapeExamplePortal plain_keyword goto_second two_jobs healthy healthy
         healthy_page healthy_page "rocq" init_world)
  = Returned (Some ["Proof engineer"; "Compiler engineer"]%string).
Proof. reflexivity. Qed.

(** The pages of two runs, with the calls of the operation and of
    [close()] on each.  The operation fails twice: three pages, each used
    once and closed once.  The first [close()] throws after a success: the
    first page is closed twice, the second once; the page 3 does not
    exist. *)
Example withPage_pages_of_a_run :
  let h1 :=
    trace (snd (withPage healthy healthy healthy_page (flaky 2 42)
                  close_fails_in_catch 2 init_world)) in
  let h2 :=
    trace (snd (withPage healthy healthy healthy_page (flaky 0 7)
                  close_fails_once 2 init_world)) in
  map (fun p => (invocations_on p h1, closes_on p h1)) [1; 2; 3; 4]
  = [(1, 1); (1, 1); (1, 1); (0, 0)] /\
  map (fun p => (invocations_on p h2, closes_on p h2)) [1; 2; 3]
  = [(1, 2); (1, 1); (0, 0)].
Proof. vm_compute. split; reflexivity. Qed.

(** X5, at an instance: no browser can be launched; three executions. *)
Lemma failed_launch_is_kept_witness :
  let (res, w1) :=
    withPage no_browser healthy healthy_page always_7 healthy_page 2
      init_world in
  res = Threw (mkError "Failed to launch the browser process") /\
  trace w1 = Launch false :: trace init_world /\
  withPage_all no_browser healthy healthy_page always_7 healthy_page
    [0; 5] w1
  = (map (fun _ => Threw (mkError "Failed to launch the browser process"))
       [0; 5], w1).
Proof.
  apply (@failed_launch_is_kept nat no_browser healthy healthy_page always_7
           healthy_page 2 [0; 5] init_world).
  - reflexivity.
  - reflexivity.
Defined.

(** X3, at an instance: the operation returns 7 on the first attempt. *)
Lemma withPage_returns_last_result_witness :
  returned_cleanly always_7 healthy_page 7
    (trace (snd (withPage healthy healthy healthy_page always_7 healthy_page
                   0 init_world))).
Proof.
  pose proof (@withPage_returns_last_result nat healthy healthy healthy_page
                always_7 healthy_page 0 init_world) as H.
  destruct (withPage healthy healthy healthy_page always_7 healthy_page 0
              init_world) as [res w'] eqn:Hrun.
  injection Hrun as <- <-. apply H. reflexivity.
Defined.


End LauncherSpec.

Module GeminiSpec.
Import Gemini.

(** *** The insertion-ordered map *)

Lemma Map_get_set_same (k : string) (v : entry) (m : Map) :
  Map_get k (Map_set k v m) = Some v.
Proof.
  induction m as [|[k0 v0] m IH]; cbn.
  - rewrite String.eqb_refl. reflexivity.
  - destruct (String.eqb k0 k) eqn:E; cbn; rewrite E; auto.
Qed.

Lemma Map_get_set_other (k k' : string) (v : entry) (m : Map) :
  k' <> k -> Map_get k' (Map_set k v m) = Map_get k' m.
Proof.
  intros Hne. induction m as [|[k0 v0] m IH]; cbn.
  - destruct (String.eqb_spec k k'); [congruence|reflexivity].
  - destruct (String.eqb_spec k0 k) as [->|Hk]; cbn.
    + destruct (String.eqb_spec k k'); [congruence|reflexivity].
    + destruct (String.eqb k0 k'); auto.
Qed.

Lemma Map_get_delete_other (k k' : string) (m : Map) :
  k' <> k -> Map_get k' (Map_delete k m) = Map_get k' m.
Proof.
  intros Hne. induction m as [|[k0 v0] m IH]; cbn; [reflexivity|].
  destruct (String.eqb_spec k0 k) as [->|Hk]; cbn.
  - destruct (String.eqb_spec k k'); [congruence|exact IH].
  - destruct (String.eqb k0 k'); auto.
Qed.

Lemma Map_get_None (k : string) (m : Map) :
  Map_get k m = None <-> ~ In k (Map_keys m).
Proof.
  induction m as [|[k0 v0] m IH]; cbn; [tauto|].
  destruct (String.eqb_spec k0 k) as [->|Hk].
  - split; [discriminate|tauto].
  - rewrite IH. tauto.
Qed.

Lemma Map_set_new (k : string) (v : entry) (m : Map) :
  Map_get k m = None -> Map_set k v m = (m ++ [(k, v)])%list.
Proof.
  induction m as [|[k0 v0] m IH]; cbn; [reflexivity|].
  destruct (String.eqb k0 k); [discriminate|].
  intros H. rewrite IH by exact H. reflexivity.
Qed.

Lemma Map_set_present (k : string) (v e : entry) (m : Map) :
  Map_get k m = Some e -> Map_size (Map_set k v m) = Map_size m.
Proof.
  induction m as [|[k0 v0] m IH]; cbn; [discriminate|].
  destruct (String.eqb k0 k); cbn; [reflexivity|].
  intros H. f_equal. apply IH, H.
Qed.

Lemma Map_delete_length (k : string) (m : Map) :
  (Map_size (Map_delete k m) <= Map_size m)%nat.
Proof. apply filter_length_le. Qed.

Lemma Map_delete_absent (k : string) (m : Map) :
  ~ In k (Map_keys m) -> Map_delete k m = m.
Proof.
  induction m as [|[k0 v0] m IH]; cbn; [reflexivity|].
  intros H. destruct (String.eqb_spec k0 k) as [->|Hk]; [tauto|].
  cbn. f_equal. apply IH. tauto.
Qed.





Lemma Map_delete_head (k : string) (v : entry) (m : Map) :
  ~ In k (Map_keys m) -> Map_delete k ((k, v) :: m) = m.
Proof.
  intros H. unfold Map_delete. cbn. rewrite String.eqb_refl. cbn.
  apply Map_delete_absent, H.
Qed.




Lemma Map_set_size_le (k : string) (v : entry) (m : Map) :
  (Map_size (Map_set k v m) <= S (Map_size m))%nat.
Proof.
  induction m as [|[k0 v0] m IH]; cbn; [lia|].
  destruct (String.eqb k0 k); cbn; [lia|].
  unfold Map_size in IH. lia.
Qed.

(** The cache never holds more than 100 entries. *)
Lemma setCache_bounded (now : Z) (k text : string) (c : Map) :
  (Map_size c <= 100)%nat -> (Map_size (setCache now k text c) <= 100)%nat.
Proof.
  intros Hc. unfold setCache.
  set (cache1 := Map_set k _ c).
  pose proof (Map_set_size_le k (mkEntry text now) c) as Hle. fold cache1 in Hle.
  destruct (Nat.ltb_spec 100 (Map_size cache1)) as [Hfull|]; [|assumption].
  destruct cache1 as [|[k0 v0] rest]; [cbn in Hfull; lia|].
  cbn [Map_first_key]. unfold Map_delete. cbn [filter fst].
  rewrite String.eqb_refl. cbn [negb].
  pose proof (Map_delete_length k0 rest) as Hd.
  unfold Map_delete, Map_size in *. cbn [List.length] in Hle. lia.
Qed.

(** An entry that was just written is there. *)
Lemma setCache_get_same (now : Z) (k text : string) (c : Map) :
  (Map_size c <= 100)%nat ->
  Map_get k (setCache now k text c) = Some (mkEntry text now).
Proof.
  intros Hc. unfold setCache.
  destruct (Nat.ltb_spec 100 (Map_size (Map_set k (mkEntry text now) c)))
    as [Hfull|_]; [|apply Map_get_set_same].
  destruct (Map_get k c) as [e|] eqn:Hget.
  - rewrite (Map_set_present _ _ _ Hget) in Hfull. lia.
  - rewrite (Map_set_new _ _ _ Hget) in *.
    destruct c as [|[k0 v0] c']; [cbn in Hfull; lia|].
    assert (Hne : k <> k0).
    { cbn in Hget. destruct (String.eqb_spec k0 k); congruence. }
    rewrite <- (Map_set_new _ _ _ Hget).
    replace (Map_first_key (Map_set k (mkEntry text now) ((k0, v0) :: c')))
      with (Some k0)
      by (rewrite (Map_set_new _ _ _ Hget); reflexivity).
    rewrite Map_get_delete_other by exact Hne.
    apply Map_get_set_same.
Qed.

(** A new key written into a full cache takes the place of the oldest. *)
Lemma setCache_evicts_oldest (now : Z) (k text k0 : string) (v0 : entry)
    (rest : Map) :
  Map_size ((k0, v0) :: rest) = 100 ->
  Map_get k ((k0, v0) :: rest) = None ->
  ~ In k0 (Map_keys rest) ->
  setCache now k text ((k0, v0) :: rest)
  = (rest ++ [(k, mkEntry text now)])%list.
Proof.
  intros Hsize Hnew Hk0. unfold setCache.
  rewrite (Map_set_new _ _ _ Hnew).
  unfold Map_size in *. rewrite length_app, Hsize.
  rewrite <- app_comm_cons. cbn [List.length Nat.add Nat.ltb Nat.leb Map_first_key].
  replace (100 <? 100 + 1)%nat with true by reflexivity.
  apply Map_delete_head.
  unfold Map_keys. rewrite map_app. cbn [map fst].
  intros Hin. apply in_app_or in Hin as [Hin|[Hin|[]]]; [exact (Hk0 Hin)|].
  cbn in Hnew. rewrite <- Hin, String.eqb_refl in Hnew. discriminate.
Qed.



(** *** Probing *)

Section Probing.

Variable generateContent : list event -> string -> string -> reply generated.
Variable fetchModels : list event -> reply fetched.

#[local] Abbreviation tryModel := (tryModel generateContent).
#[local] Abbreviation tryEach := (tryEach generateContent).
#[local] Abbreviation accepts := (accepts generateContent).
#[local] Abbreviation initWith := (initWith generateContent fetchModels).

Lemma only_probing_refl (w : world) : only_probing w w.
Proof. repeat split. Qed.

Lemma only_probing_trans (w1 w2 w3 : world) :
  only_probing w1 w2 -> only_probing w2 w3 -> only_probing w1 w3.
Proof. unfold only_probing. intuition congruence. Qed.

Lemma outside_only_probing (evs : list event) (ms : Z) (w : world) :
  generation_calls evs = 0 -> only_probing w (outside evs ms w).
Proof.
  intros H. split; [|split; reflexivity].
  cbn. unfold generation_calls in *. rewrite filter_app, length_app, H.
  reflexivity.
Qed.

Lemma tryModel_spec (modelName : string) (w : world) :
  let (res, w') := tryModel modelName w in
  res = Returned (accepts (calls w) modelName) /\
  probed (calls w') = (probed (calls w) ++ [modelName])%list /\
  fetch_calls (calls w') = fetch_calls (calls w) /\
  only_probing w w' /\
  (if accepts (calls w) modelName
   then activeModelName w' = Some modelName /\ model w' = Some modelName
   else activeModelName w' = activeModelName w /\ model w' = model w).
Proof.
  unfold Gemini.tryModel, Gemini.accepts, probe, try_catch, bind, ret.
  destruct (generateContent (calls w) modelName "OK") as [ms [e|[text|e]]];
    cbn [answer latency].
  - destruct (8000 <=? ms)%Z; cbn; repeat split.
  - destruct (8000 <=? ms)%Z; destruct text; cbn; repeat split.
  - destruct (8000 <=? ms)%Z; cbn; repeat split.
Qed.

Lemma tryEach_all_fail (names : list string) :
  forall w,
    (forall h c, In c names -> accepts h c = false) ->
    let (res, w') := tryEach names w in
    res = Returned false /\
    probed (calls w') = (probed (calls w) ++ names)%list /\
    fetch_calls (calls w') = fetch_calls (calls w) /\
    only_probing w w' /\
    activeModelName w' = activeModelName w /\ model w' = model w.
Proof.
  induction names as [|c names IH]; intros w Hfail.
  - cbn. rewrite app_nil_r. repeat split.
  - simpl. unfold bind.
    pose proof (tryModel_spec c w) as Hc.
    destruct (tryModel c w) as [res1 w1].
    rewrite (Hfail (calls w) c (or_introl eq_refl)) in Hc.
    destruct Hc as (-> & Hp & Hf & Ho & Ha & Hm).
    specialize (IH w1 (fun h c' Hin => Hfail h c' (or_intror Hin))).
    destruct (tryEach names w1) as [res w'].
    destruct IH as (-> & Hp' & Hf' & Ho' & Ha' & Hm').
    split; [reflexivity|]. split.
    { rewrite Hp', Hp, <- app_assoc. reflexivity. }
    split; [congruence|]. split; [eapply only_probing_trans; eassumption|].
    split; congruence.
Qed.

Lemma tryEach_first_success (pre : list string) (m : string)
    (post : list string) :
  forall w,
    (forall i c h, nth_error pre i = Some c ->
       probed h = (probed (calls w) ++ firstn i pre)%list ->
       accepts h c = false) ->
    (forall h, probed h = (probed (calls w) ++ pre)%list ->
       accepts h m = true) ->
    let (res, w') := tryEach (pre ++ m :: post) w in
    res = Returned true /\
    probed (calls w') = (probed (calls w) ++ pre ++ [m])%list /\
    fetch_calls (calls w') = fetch_calls (calls w) /\
    only_probing w w' /\
    activeModelName w' = Some m /\ model w' = Some m.
Proof.
  induction pre as [|c pre IH]; intros w Hfail Hsucc.
  - simpl. unfold bind.
    pose proof (tryModel_spec m w) as Hm.
    destruct (tryModel m w) as [res1 w1].
    rewrite (Hsucc (calls w)) in Hm by (rewrite app_nil_r; reflexivity).
    destruct Hm as (-> & Hp & Hf & Ho & Ha & Hm).
    split; [reflexivity|]. repeat (split; [assumption|]). assumption.
  - simpl. unfold bind.
    pose proof (tryModel_spec c w) as Hc.
    destruct (tryModel c w) as [res1 w1].
    rewrite (Hfail 0 c (calls w) eq_refl) in Hc
      by (cbn; rewrite app_nil_r; reflexivity).
    destruct Hc as (-> & Hp & Hf & Ho & _).
    assert (Hfail' : forall i c' h, nth_error pre i = Some c' ->
              probed h = (probed (calls w1) ++ firstn i pre)%list ->
              accepts h c' = false).
    { intros i c' h Hi Hh. apply (Hfail (S i) c' h Hi).
      rewrite Hh, Hp, <- app_assoc. reflexivity. }
    assert (Hsucc' : forall h, probed h = (probed (calls w1) ++ pre)%list ->
              accepts h m = true).
    { intros h Hh. apply Hsucc. rewrite Hh, Hp, <- app_assoc. reflexivity. }
    specialize (IH w1 Hfail' Hsucc').
    destruct (tryEach (pre ++ m :: post) w1) as [res w'].
    destruct IH as (-> & Hp' & Hf' & Ho' & Ha' & Hm').
    split; [reflexivity|]. split.
    { rewrite Hp', Hp, <- app_assoc. reflexivity. }
    split; [congruence|]. split; [eapply only_probing_trans; eassumption|].
    split; assumption.
Qed.

(** C4. Candidates are probed in the order of the list.  When the probes of
    the candidates [pre] fail, each at its turn, and the probe of the next
    candidate [m] then succeeds, initialization records [m] as the active
    model, has probed exactly [pre] and then [m], in this order, and probes
    none of the later candidates [post]; the discovery endpoint is not
    fetched. *)
Theorem init_first_success_wins (pre : list string) (m : string)
    (post : list string) (w : world) :
  (forall i c h, nth_error pre i = Some c ->
     probed h = (probed (calls w) ++ firstn i pre)%list ->
     accepts h c = false) ->
  (forall h, probed h = (probed (calls w) ++ pre)%list ->
     accepts h m = true) ->
  let (res, w') := initWith (pre ++ m :: post) w in
  res = Returned tt /\
  activeModelName w' = Some m /\ model w' = Some m /\
  probed (calls w') = (probed (calls w) ++ pre ++ [m])%list /\
  fetch_calls (calls w') = fetch_calls (calls w).
Proof.
  intros Hfail Hsucc. unfold Gemini.initWith, bind.
  pose proof (tryEach_first_success pre m post w Hfail Hsucc) as H.
  destruct (tryEach (pre ++ m :: post) w) as [res w'].
  destruct H as (-> & Hp & Hf & _ & Ha & Hm).
  cbn. repeat split; assumption.
Qed.

(** Initialization, whatever the backend answers, returns, and makes probes
    and fetches only. *)
Lemma tryEach_returns (names : list string) :
  forall w,
    let (res, w') := tryEach names w in
    (exists found, res = Returned found) /\ only_probing w w'.
Proof.
  induction names as [|c names IH]; intros w.
  - cbn. split; [eauto|apply only_probing_refl].
  - simpl. unfold bind.
    pose proof (tryModel_spec c w) as Hc.
    destruct (tryModel c w) as [res1 w1].
    destruct Hc as (-> & _ & _ & Ho & _).
    destruct (accepts (calls w) c).
    + cbn. split; [eauto|exact Ho].
    + specialize (IH w1). destruct (tryEach names w1) as [res w'].
      destruct IH as [Hres Ho']. split; [exact Hres|].
      eapply only_probing_trans; eassumption.
Qed.

Lemma initWith_returns (candidates : list string) (w : world) :
  let (res, w') := initWith candidates w in
  res = Returned tt /\ only_probing w w'.
Proof.
  unfold Gemini.initWith, bind.
  pose proof (tryEach_returns candidates w) as H.
  destruct (tryEach candidates w) as [res1 w1].
  destruct H as [[found ->] Ho1].
  destruct found; [cbn; split; [reflexivity|exact Ho1]|].
  unfold try_catch, discover, bind, do_fetch.
  destruct (fetchModels (calls w1)) as [ms [e|ok json]];
    cbn [answer latency].
  - cbn. split; [reflexivity|].
    eapply only_probing_trans; [exact Ho1|].
    apply outside_only_probing. reflexivity.
  - assert (Ho2 : only_probing w (outside [Fetch] ms w1)).
    { eapply only_probing_trans; [exact Ho1|].
      apply outside_only_probing. reflexivity. }
    destruct ok; cbn [fst snd]; [|cbn; split; [reflexivity|exact Ho2]].
    destruct json as [models|e]; cbn [lift];
      [|cbn; split; [reflexivity|exact Ho2]].
    unfold ret at 1.
    destruct (availableModels models) as [names|e]; cbn [lift];
      [|cbn; split; [reflexivity|exact Ho2]].
    unfold ret at 1.
    pose proof (tryEach_returns names (outside [Fetch] ms w1)) as H.
    destruct (tryEach names (outside [Fetch] ms w1)) as [res2 w2].
    destruct H as [[found ->] Ho3].
    assert (Ho : only_probing w w2)
      by (eapply only_probing_trans; eassumption).
    destruct found; cbn; split; (reflexivity || exact Ho).
Qed.

(** The service, once constructed: its initialization is over, its cache is
    empty, and no generation request was sent. *)
Lemma construct_ready (candidates : list string) (now0 : Z) :
  let w := construct generateContent fetchModels candidates now0 in
  settled w /\ cache w = [] /\ generation_calls (calls w) = 0.
Proof.
  unfold construct.
  match goal with
  | |- context [Gemini.initWith _ _ _ ?w0] =>
      pose proof (initWith_returns candidates w0) as H;
      destruct (Gemini.initWith generateContent fetchModels candidates w0)
        as [res w1]
  end.
  destruct H as (-> & Hgen & Hcache & _).
  split; [right; reflexivity|]. split; [exact Hcache|exact Hgen].
Qed.

(** The timer does not decide: an answer that comes after the 8000 ms, when
    [controller.abort()] has been called, selects the model. *)
Lemma tryModel_late_answer (modelName text : string) (ms : Z) (w : world) :
  generateContent (calls w) modelName "OK" = mkReply ms (Resolved (inl text)) ->
  text <> "" -> (8000 <= ms)%Z ->
  let (res, w') := tryModel modelName w in
  res = Returned true /\
  activeModelName w' = Some modelName /\
  calls w' = Abort modelName :: Probe modelName :: calls w.
Proof.
  intros Hreply Htext Hms.
  unfold Gemini.tryModel, probe, try_catch, bind, ret.
  rewrite Hreply. cbn [answer latency].
  apply Z.leb_le in Hms. rewrite Hms.
  destruct text as [|c text]; [congruence|]. cbn. repeat split.
Qed.

(** *** The uninitialized gateway *)

Lemma initWith_all_fail (candidates : list string) (w : world) :
  (forall h c, In c candidates -> accepts h c = false) ->
  (forall h h' models names c,
     answer (fetchModels h) = FetchResponse true (inl models) ->
     availableModels models = inl names ->
     In c names -> accepts h' c = false) ->
  let (res, w') := initWith candidates w in
  res = Returned tt /\ only_probing w w' /\
  activeModelName w' = activeModelName w /\ model w' = model w.
Proof.
  intros Hhard Hdisc. unfold Gemini.initWith, bind.
  pose proof (tryEach_all_fail candidates w Hhard) as H.
  destruct (tryEach candidates w) as [res1 w1].
  destruct H as (-> & _ & _ & Ho1 & Ha1 & Hm1).
  unfold try_catch, discover, bind, do_fetch.
  destruct (fetchModels (calls w1)) as [ms [e|ok json]] eqn:Hfetch;
    cbn [answer latency].
  - (* no answer from the endpoint *)
    cbn. split; [reflexivity|]. split; [|split; assumption].
    eapply only_probing_trans; [exact Ho1|].
    apply outside_only_probing. reflexivity.
  - assert (Ho2 : only_probing w (outside [Fetch] ms w1)).
    { eapply only_probing_trans; [exact Ho1|].
      apply outside_only_probing. reflexivity. }
    destruct ok; cbn [fst snd].
    2:{ cbn. repeat split; try assumption; apply Ho2. }
    destruct json as [models|e]; cbn [lift].
    2:{ cbn. repeat split; try assumption; apply Ho2. }
    unfold ret at 1.
    destruct (availableModels models) as [names|e] eqn:Hav; cbn [lift].
    2:{ cbn. repeat split; try assumption; apply Ho2. }
    unfold ret at 1.
    pose proof (tryEach_all_fail names (outside [Fetch] ms w1)) as H.
    destruct (tryEach names (outside [Fetch] ms w1)) as [res2 w2].
    destruct H as (-> & _ & _ & Ho3 & Ha3 & Hm3).
    { intros h c Hin. eapply (Hdisc (calls w1)); [|exact Hav|exact Hin].
      rewrite Hfetch. reflexivity. }
    cbn. split; [reflexivity|].
    split; [eapply only_probing_trans; eassumption|].
    cbn in Ha3, Hm3. split; congruence.
Qed.

End Probing.

(** C4, at an instance: of the candidates A, B, C, the first is not served;
    B is selected and C is not probed, though it would answer. *)
Lemma init_first_success_wins_witness :
  let (res, w') :=
    initWith all_but_A unreachable (["A"] ++ "B" :: ["C"])
      {| activeModelName := None; model := None; cache := [];
         _initPromise := None; now := 0; calls := [] |} in
  res = Returned tt /\
  activeModelName w' = Some "B" /\ model w' = Some "B" /\
  probed (calls w') = ([] ++ ["A"] ++ ["B"])%list /\
  fetch_calls (calls w') = fetch_calls [].
Proof.
  apply (@init_first_success_wins all_but_A unreachable ["A"] "B" ["C"]).
  - intros [|[|i]] c h Hc _; try discriminate.
    injection Hc as <-. reflexivity.
  - intros h _. reflexivity.
Defined.

(** The hardcoded list, on the same backend: its first model is selected. *)
Example init_hardcoded_first :
  activeModelName (service all_but_A unreachable 0)
    = Some "gemini-1.5-flash-8b" /\
  probed (calls (service all_but_A unreachable 0)) = ["gemini-1.5-flash-8b"].
Proof. split; reflexivity. Qed.

(** *** Generation *)

Section Generation.

Variable generateContent : list event -> string -> string -> reply generated.
Variable generateContentStream :
  list event -> string -> string -> reply (list string + Error).
Variable fetchModels : list event -> reply fetched.

#[local] Abbreviation accepts := (accepts generateContent).
#[local] Abbreviation generateRaw := (generateRaw generateContent).
#[local] Abbreviation generateStream := (generateStream generateContentStream).
#[local] Abbreviation serve :=
  (serve generateContent generateContentStream).
#[local] Abbreviation serve_all :=
  (serve_all generateContent generateContentStream).
#[local] Abbreviation service := (service generateContent fetchModels).

Lemma ensureReady_settled (w : world) :
  settled w -> ensureReady w = (Returned tt, set_initPromise None w).
Proof.
  intros [H|H]; unfold ensureReady; rewrite H; [|reflexivity].
  destruct w; cbn in *; subst; reflexivity.
Qed.

(** [generateRaw] on a gateway whose initialization is over. *)
Lemma generateRaw_eq (prompt : string) (w : world) :
  settled w ->
  generateRaw prompt w =
  let w0 := set_initPromise None w in
  match model w with
  | None => (Threw not_initialized, w0)
  | Some m =>
      let cacheKey := String.substring 0 100 prompt in
      match getCached (now w) cacheKey (cache w) with
      | Some (String c s) => (Returned (String c s), w0)
      | _ =>
          let r := generateContent (calls w) m prompt in
          let w' := outside [Generate m prompt] (latency r) w0 in
          match answer r with
          | Resolved (inl text) =>
              (Returned text,
               set_cache (setCache (now w') cacheKey text (cache w')) w')
          | Resolved (inr e) | Rejected e => (Threw e, w')
          end
      end
  end.
Proof.
  intros Hs. unfold Gemini.generateRaw, bind at 1.
  rewrite (ensureReady_settled Hs). cbn [set_initPromise model now cache].
  destruct (model w) as [m|]; [|reflexivity].
  cbv zeta.
  destruct (getCached _ _ _) as [[|c s]|]; try reflexivity;
    unfold bind, do_generateContent; cbn [calls set_initPromise];
    destruct (generateContent (calls w) m prompt) as [ms [e|[text|e]]];
    reflexivity.
Qed.

Lemma generateStream_eq (prompt : string) (w : world) :
  settled w ->
  generateStream prompt w =
  let w0 := set_initPromise None w in
  match model w with
  | None => (Threw not_initialized, w0)
  | Some m =>
      let r := generateContentStream (calls w) m prompt in
      let w' := outside [GenerateStream m prompt] (latency r) w0 in
      match answer r with
      | inl stream => (Returned stream, w')
      | inr e => (Threw e, w')
      end
  end.
Proof.
  intros Hs. unfold Gemini.generateStream, bind at 1.
  rewrite (ensureReady_settled Hs). cbn [set_initPromise model calls].
  reflexivity.
Qed.

(** [generateRaw] keeps the gateway ready, its model, and the bound of its
    cache. *)
Lemma generateRaw_keeps_ready (prompt : string) (w : world) :
  settled w -> (Map_size (cache w) <= 100)%nat ->
  let w' := snd (generateRaw prompt w) in
  settled w' /\ (Map_size (cache w') <= 100)%nat /\ model w' = model w.
Proof.
  intros Hs Hsize. rewrite (generateRaw_eq prompt Hs). cbv zeta.
  destruct (model w) as [m|] eqn:Hm; [|cbn; split; [left; reflexivity|auto]].
  assert (Hfresh :
    let r := generateContent (calls w) m prompt in
    let w0 := outside [Generate m prompt] (latency r) (set_initPromise None w) in
    let w' :=
      snd (match answer r with
           | Resolved (inl text) =>
               (Returned text,
                set_cache (setCache (now w0) (String.substring 0 100 prompt)
                             text (cache w0)) w0)
           | Resolved (inr e) | Rejected e => (Threw e, w0)
           end) in
    settled w' /\ (Map_size (cache w') <= 100)%nat /\ model w' = Some m).
  { cbv zeta.
    destruct (answer (generateContent (calls w) m prompt)) as [e|[text|e]];
      cbn; (split; [left; reflexivity|]); (split; [|exact Hm]);
      try exact Hsize.
    apply setCache_bounded, Hsize. }
  destruct (getCached _ _ _) as [[|c s]|]; try exact Hfresh.
  cbn. split; [left; reflexivity|auto].
Qed.

Lemma serve_uninitialized (rq : request) (w : world) :
  settled w -> model w = None ->
  serve rq w = (Threw not_initialized, set_initPromise None w).
Proof.
  intros Hs Hm. destruct rq as [prompt|prompt]; unfold Gemini.serve, bind.
  - rewrite (generateRaw_eq prompt Hs), Hm. reflexivity.
  - rewrite (generateStream_eq prompt Hs), Hm. reflexivity.
Qed.

Lemma serve_all_uninitialized (rqs : list (Z * request)) :
  forall w,
    settled w -> model w = None ->
    let (cs, w') := serve_all rqs w in
    Forall (fun c => c = Threw not_initialized) cs /\
    List.length cs = List.length rqs /\
    calls w' = calls w /\ model w' = None.
Proof.
  induction rqs as [|[ms rq] rqs IH]; intros w Hs Hm.
  - cbn. split; [constructor|]. split; [reflexivity|]. split; [reflexivity|].
    exact Hm.
  - cbn [Gemini.serve_all].
    rewrite serve_uninitialized by (assumption || exact Hs).
    specialize (IH (set_initPromise None (elapse ms w))).
    destruct (serve_all rqs _) as [cs w'].
    destruct IH as (Hall & Hlen & Hcalls & Hmodel);
      [left; reflexivity|exact Hm|].
    split; [constructor; [reflexivity|exact Hall]|].
    split; [cbn; congruence|]. split; [|exact Hmodel].
    rewrite Hcalls. reflexivity.
Qed.

(** C5. When the probes of all the hardcoded candidates fail and the
    discovery finds no candidate whose probe succeeds, the service comes out
    of its construction without a model; from then on every call of
    [generateRaw] and of [generateStream], in any number and at any time,
    throws the error "No active Gemini model initialized", and no generation
    request reaches the backend. *)
Theorem uninitialized_gateway (now0 : Z) (rqs : list (Z * request)) :
  (forall h c, In c fastModels -> accepts h c = false) ->
  (forall h h' models names c,
     answer (fetchModels h) = FetchResponse true (inl models) ->
     availableModels models = inl names ->
     In c names -> accepts h' c = false) ->
  model (service now0) = None /\
  activeModelName (service now0) = None /\
  let (cs, w') := serve_all rqs (service now0) in
  Forall (fun c => c = Threw not_initialized) cs /\
  List.length cs = List.length rqs /\
  generation_calls (calls w') = 0.
Proof.
  intros Hhard Hdisc. unfold Gemini.service, construct.
  match goal with
  | |- context [Gemini.initWith _ _ _ ?w0] =>
      pose proof (initWith_all_fail generateContent fetchModels fastModels w0
                    Hhard Hdisc) as H;
      destruct (Gemini.initWith generateContent fetchModels fastModels w0)
        as [res w1]
  end.
  destruct H as (-> & (Hgen & _ & _) & Ha & Hm). cbn in Hgen, Ha, Hm.
  split; [exact Hm|]. split; [exact Ha|].
  pose proof (serve_all_uninitialized rqs
                (w := set_initPromise (Some (Returned tt)) w1)) as H.
  destruct (serve_all rqs _) as [cs w'].
  destruct H as (Hall & Hlen & Hcalls & _);
    [right; reflexivity|exact Hm|].
  split; [exact Hall|]. split; [exact Hlen|].
  rewrite Hcalls. exact Hgen.
Qed.


(** C9, amended. [generateStream] never reads nor writes the cache: on an
    initialized gateway every call sends its prompt to the backend, whatever
    the cache holds, returns the stream of the backend (or throws its
    error), and leaves the cache as it was. *)
Theorem generateStream_always_requests (w : world) (m prompt : string) :
  settled w -> model w = Some m ->
  let (res, w') := generateStream prompt w in
  res = match answer (generateContentStream (calls w) m prompt) with
        | inl stream => Returned stream
        | inr e => Threw e
        end /\
  calls w' = GenerateStream m prompt :: calls w /\
  cache w' = cache w.
Proof.
  intros Hs Hm. rewrite (generateStream_eq prompt Hs), Hm. cbv zeta.
  destruct (answer _); repeat split.
Qed.

End Generation.



(** C9, as stated, fails: the answer to a prompt is in the cache, valid, and
    [generateStream] sends the same prompt to the backend all the same. *)
Lemma stream_not_served_from_cache :
  let w0 := service always_OK unreachable 0 in
  let (r1, w1) := generateRaw always_OK "Tell me a joke" w0 in
  let (r2, w2) := generateStream two_chunks "Tell me a joke" w1 in
  getCached (now w1) (String.substring 0 100 "Tell me a joke") (cache w1)
    = Some "OK" /\
  r2 = Returned ["Hel"; "lo"] /\
  calls w2
    = GenerateStream "gemini-1.5-flash-8b" "Tell me a joke" :: calls w1 /\
  generation_calls (calls w2) = 2.
Proof. vm_compute. repeat split. Qed.

(** C9, amended, at that instance. *)
Lemma generateStream_always_requests_witness :
  let w1 := snd (generateRaw always_OK "Tell me a joke"
                   (service always_OK unreachable 0)) in
  let (res, w') := generateStream two_chunks "Tell me a joke" w1 in
  res = match answer (two_chunks (calls w1) "gemini-1.5-flash-8b"
                        "Tell me a joke") with
        | inl stream => Returned stream
        | inr e => Threw e
        end /\
  calls w'
    = GenerateStream "gemini-1.5-flash-8b" "Tell me a joke" :: calls w1 /\
  cache w' = cache w1.
Proof.
  apply (@generateStream_always_requests two_chunks
           (snd (generateRaw always_OK "Tell me a joke"
                   (service always_OK unreachable 0)))
           "gemini-1.5-flash-8b" "Tell me a joke").
  - left. reflexivity.
  - reflexivity.
Defined.

(** C8: the probe of "A" resolves after 10 seconds, two seconds after the
    timer has called [controller.abort()]; "A" is selected all the same, and
    the next candidate "B" is not probed. *)
Lemma probe_after_timeout_accepted :
  let (res, w') := initWith slow_A unreachable ["A"; "B"] blank in
  res = Returned tt /\
  now w' = 10000%Z /\
  calls w' = [Abort "A"; Probe "A"] /\
  activeModelName w' = Some "A" /\
  probed (calls w') = ["A"].
Proof. vm_compute. repeat split. Qed.

(** C5, at an instance: no model is served and the discovery endpoint is
    unreachable; a call of each generation method. *)
Lemma uninitialized_gateway_witness :
  model (service no_model unreachable 0) = None /\
  activeModelName (service no_model unreachable 0) = None /\
  let (cs, w') :=
    serve_all no_model no_stream
      [(0, Raw "Hello"); (1000, Stream "Hello")]%Z
      (service no_model unreachable 0) in
  Forall (fun c => c = Threw not_initialized) cs /\
  List.length cs = 2 /\
  generation_calls (calls w') = 0.
Proof.
  apply (@uninitialized_gateway no_model no_stream unreachable 0
           [(0, Raw "Hello"); (1000, Stream "Hello")]%Z).
  - reflexivity.
  - intros h h' models names c H. discriminate H.
Defined.

(** *** Recommendations *)

Section Recommendations.

Variable generateContent : list event -> string -> string -> reply generated.
Variable number : Type.
Variable number_truthy : number -> bool.
Variable JSON_parse : string -> json number + Error.

#[local] Abbreviation generateRaw := (generateRaw generateContent).
#[local] Abbreviation keep := (keep number_truthy).
#[local] Abbreviation extractFirstJSONArray :=
  (extractFirstJSONArray JSON_parse).
#[local] Abbreviation getJobRecommendations :=
  (getJobRecommendations generateContent number_truthy JSON_parse).

Lemma keep_usable (r : json number) : keep r = true -> usable r.
Proof.
  unfold Gemini.keep, property. intros H.
  apply andb_prop in H as [H Hscore]. apply andb_prop in H as [_ Hid].
  destruct r as [| | | | |fields]; try discriminate.
  destruct (assoc "jobId" fields) as [jobId|] eqn:Hj; [|discriminate].
  destruct (assoc "matchScore" fields) as [[| |score| | |]|] eqn:Hm;
    try discriminate.
  exists fields, jobId, score. repeat split; assumption.
Qed.

Lemma kept_usable (arr : list (json number)) :
  Forall (@usable number) (firstn 5 (filter keep arr)).
Proof.
  apply Forall_forall. intros r Hin.
  assert (Hin' : In r (filter keep arr)).
  { rewrite <- (firstn_skipn 5 (filter keep arr)).
    apply in_or_app. left. exact Hin. }
  apply filter_In in Hin' as [_ Hkeep].
  apply keep_usable, Hkeep.
Qed.

(** C10. Whatever [resumeData] and [availableJobs] are, and whatever the
    backend and the parser do, [getJobRecommendations] does not throw: it
    returns an array of at most 5 elements, each an object with a [jobId]
    and with a [matchScore] that is a number.  This array is empty when the
    prompt cannot be built, when [generateRaw] throws, and when no array is
    extracted from the text; when an array is extracted, it is made of the
    first 5 of its elements that pass the filter. *)
Theorem getJobRecommendations_total (resumeData : option resume)
    (availableJobs : option (list job)) (w : world) :
  let (res, w') := getJobRecommendations resumeData availableJobs w in
  exists recs,
    res = Returned recs /\
    (List.length recs <= 5)%nat /\
    Forall (@usable number) recs /\
    match recommendationPrompt resumeData availableJobs with
    | inr _ => recs = []
    | inl prompt =>
        match generateRaw prompt w with
        | (Threw _, _) => recs = []
        | (Returned text, _) =>
            match extractFirstJSONArray text with
            | Some (JArray arr) => recs = firstn 5 (filter keep arr)
            | _ => recs = []
            end
        end
    end.
Proof.
  unfold Gemini.getJobRecommendations, try_catch, bind, lift.
  destruct (recommendationPrompt resumeData availableJobs) as [prompt|e].
  2:{ cbn. exists []. repeat split; [cbn; lia|constructor]. }
  unfold ret at 1.
  destruct (generateRaw prompt w) as [[text|e] w1].
  2:{ cbn. exists []. repeat split; [cbn; lia|constructor]. }
  destruct (extractFirstJSONArray text) as [[| | | |arr|]|];
    try (cbn; exists []; repeat split; [cbn; lia|constructor]).
  cbn. exists (firstn 5 (filter keep arr)).
  split; [reflexivity|]. split; [apply firstn_le_length|].
  split; [apply kept_usable|reflexivity].
Qed.

End Recommendations.

(** An array of eleven values, five of which cannot be used: the first five
    of the others are returned. *)
Example getJobRecommendations_first_five :
  fst (getJobRecommendations answers_array (fun n => negb (n =? 0)%nat)
         parse_seven
         (Some (mkResume (Some ["Rocq"; "OCaml"]) None 3))
         (Some [mkJob (Some "Proof engineer") (Some "Inria") (Some "Paris")
                  (Some ["Rocq"]) (Some "j1") None])
         (service answers_array unreachable 0))
  = Returned [ recommendation "j1" 85; recommendation "j4" 80;
               recommendation "j5" 75; recommendation "j6" 70;
               recommendation "j7" 65 ].
Proof. vm_compute. reflexivity. Qed.

(** A [resumeData] that is [null]: the error is caught. *)
Example getJobRecommendations_null_resume :
  fst (getJobRecommendations answers_array (fun n => negb (n =? 0)%nat)
         parse_seven None None (service answers_array unreachable 0))
  = Returned [].
Proof. reflexivity. Qed.

(** *** Strings *)

Lemma append_nil_r (s : string) : s ++ "" = s.
Proof. induction s as [|c s IH]; cbn; [|rewrite IH]; reflexivity. Qed.

Lemma append_assoc (a b c : string) : (a ++ b) ++ c = a ++ b ++ c.
Proof. induction a as [|x a IH]; cbn; [|rewrite IH]; reflexivity. Qed.

Lemma length_append (a b : string) :
  String.length (a ++ b) = String.length a + String.length b.
Proof. induction a as [|x a IH]; cbn; [|rewrite IH]; reflexivity. Qed.

Lemma prefix_spec (sub s : string) :
  String.prefix sub s = true <-> exists post, s = sub ++ post.
Proof.
  revert s. induction sub as [|c sub IH]; intros s.
  - destruct s; cbn; (split; [eauto|reflexivity]).
  - destruct s as [|d s]; cbn.
    + split; [discriminate|intros [post H]; discriminate].
    + destruct (ascii_dec c d) as [->|Hne].
      * rewrite IH. split; intros [post H]; exists post; congruence.
      * split; [discriminate|intros [post H]; congruence].
Qed.

Lemma includes_spec (s sub : string) :
  includes s sub = true <-> exists pre post, s = pre ++ sub ++ post.
Proof.
  split.
  - induction s as [|c s IH]; cbn [includes]; intros H;
      apply orb_prop in H as [H|H]; try discriminate.
    + apply prefix_spec in H as [post ->]. exists "", post. reflexivity.
    + apply prefix_spec in H as [post ->]. exists "", post. reflexivity.
    + destruct (IH H) as (pre & post & ->).
      exists (String c pre), post. reflexivity.
  - intros (pre & post & ->).
    induction pre as [|c pre IH].
    + cbn [String.append].
      assert (Hp : String.prefix sub (sub ++ post) = true)
        by (apply prefix_spec; eauto).
      destruct (sub ++ post); cbn [includes]; rewrite Hp; reflexivity.
    + cbn [String.append includes]. rewrite IH. apply orb_true_r.
Qed.

Lemma toLowerCase_append (a b : string) :
  toLowerCase (a ++ b) = toLowerCase a ++ toLowerCase b.
Proof. induction a as [|c a IH]; cbn; [|rewrite IH]; reflexivity. Qed.

Lemma toLowerCase_split (m x y : string) :
  toLowerCase m = x ++ y ->
  exists m1 m2, m = m1 ++ m2 /\ toLowerCase m1 = x /\ toLowerCase m2 = y.
Proof.
  revert m. induction x as [|c x IH]; intros m H.
  - exists "", m. repeat split. exact H.
  - destruct m as [|d m]; [discriminate|].
    cbn in H. injection H as Hc H.
    destruct (IH m H) as (m1 & m2 & -> & H1 & H2).
    exists (String d m1), m2. repeat split; [|exact H2].
    cbn. rewrite Hc, H1. reflexivity.
Qed.

(** *** Question type detection *)

(** X8. A message is classified as job-related exactly when one of the
    keywords occurs in it, in any capitalization and anywhere, inside a
    longer word included. *)
Theorem isJobRelatedQuestion_iff (message : string) :
  isJobRelatedQuestion message = true <->
  exists keyword pre occurrence post,
    In keyword jobKeywords /\
    message = pre ++ occurrence ++ post /\
    toLowerCase occurrence = keyword.
Proof.
  unfold isJobRelatedQuestion. cbv zeta. rewrite existsb_exists. split.
  - intros (keyword & Hin & Hinc).
    apply includes_spec in Hinc as (x & y & Hxy).
    apply toLowerCase_split in Hxy as (pre & rest & -> & Hpre & Hrest).
    apply toLowerCase_split in Hrest as (occ & post & -> & Hocc & Hpost).
    exists keyword, pre, occ, post. repeat split; assumption.
  - intros (keyword & pre & occ & post & Hin & -> & Hocc).
    exists keyword. split; [exact Hin|].
    apply includes_spec.
    exists (toLowerCase pre), (toLowerCase post).
    rewrite !toLowerCase_append, Hocc. reflexivity.
Qed.

(** The keyword "work" inside "NETWORK". *)
Example isJobRelatedQuestion_inside_a_word :
  isJobRelatedQuestion "My NETWORK is down" = true.
Proof. reflexivity. Qed.

(** *** Extraction of JSON from free text *)

Lemma from_first_spec (c : ascii) (s s' : string) :
  from_first c s = Some s' <->
  exists pre rest,
    s = pre ++ String c rest /\ s' = String c rest /\ occurs c pre = false.
Proof.
  split.
  - revert s'. induction s as [|a s IH]; intros s'; cbn; [discriminate|].
    destruct (Ascii.eqb_spec a c) as [->|Hne].
    + intros [= <-]. exists "", s. repeat split.
    + intros H. destruct (IH s' H) as (pre & rest & -> & -> & Hpre).
      exists (String a pre), rest. repeat split. cbn.
      rewrite Hpre. destruct (Ascii.eqb_spec a c); [contradiction|reflexivity].
  - intros (pre & rest & -> & -> & Hpre).
    induction pre as [|a pre IH]; cbn.
    + rewrite Ascii.eqb_refl. reflexivity.
    + cbn in Hpre. apply orb_false_elim in Hpre as [Ha Hpre].
      rewrite Ha. apply IH, Hpre.
Qed.

Lemma upto_last_None (c : ascii) (s : string) :
  upto_last c s = None <-> occurs c s = false.
Proof.
  induction s as [|a s IH]; cbn; [tauto|].
  destruct (upto_last c s) as [p|].
  - split; [discriminate|]. intros H.
    apply orb_false_elim in H as [_ H]. apply IH in H. discriminate.
  - destruct (Ascii.eqb a c); cbn.
    + split; discriminate.
    + tauto.
Qed.

Lemma upto_last_spec (c : ascii) (s p : string) :
  upto_last c s = Some p <->
  exists mid post,
    s = mid ++ String c post /\ p = mid ++ String c "" /\
    occurs c post = false.
Proof.
  split.
  - revert p. induction s as [|a s IH]; intros p; cbn; [discriminate|].
    destruct (upto_last c s) as [p'|] eqn:Hs.
    + intros [= <-]. destruct (IH p' eq_refl) as (mid & post & -> & -> & Hpost).
      exists (String a mid), post. repeat split. exact Hpost.
    + destruct (Ascii.eqb_spec a c) as [->|]; [|discriminate].
      intros [= <-]. exists "", s. repeat split.
      apply upto_last_None, Hs.
  - intros (mid & post & -> & -> & Hpost).
    induction mid as [|a mid IH]; cbn.
    + apply upto_last_None in Hpost. rewrite Hpost, Ascii.eqb_refl.
      reflexivity.
    + rewrite IH. reflexivity.
Qed.

(** The match of [/\[[\s\S]*\]/], and of the same with braces: it goes
    from the first opening character to the last closing one. *)
Lemma match_enclosed_iff (opening closing : ascii) (text m : string) :
  match_enclosed opening closing text = Some m <->
  exists pre mid post,
    text = pre ++ m ++ post /\
    m = String opening (mid ++ String closing "") /\
    occurs opening pre = false /\ occurs closing post = false.
Proof.
  unfold match_enclosed. split.
  - destruct (from_first opening text) as [[|a rest]|] eqn:Hf;
      try discriminate.
    apply from_first_spec in Hf as (pre & rest' & -> & [= -> <-] & Hpre).
    destruct (upto_last closing rest) as [p|] eqn:Hu; [|discriminate].
    apply upto_last_spec in Hu as (mid & post & -> & -> & Hpost).
    intros [= <-]. exists pre, mid, post. repeat split; try assumption.
    cbn. rewrite append_assoc. reflexivity.
  - intros (pre & mid & post & -> & -> & Hpre & Hpost).
    replace (from_first opening
               (pre ++ String opening (mid ++ String closing "") ++ post))
      with (Some (String opening (mid ++ String closing post))).
    + replace (upto_last closing (mid ++ String closing post))
        with (Some (mid ++ String closing "")); [reflexivity|].
      symmetry. apply upto_last_spec. exists mid, post. repeat split.
      exact Hpost.
    + symmetry. apply from_first_spec.
      exists pre, (mid ++ String closing post). repeat split; [|exact Hpre].
      cbn. rewrite append_assoc. reflexivity.
Qed.

Section Extraction.

Variable number : Type.
Variable JSON_parse : string -> json number + Error.

#[local] Abbreviation extractFirstJSONArray :=
  (extractFirstJSONArray JSON_parse).
#[local] Abbreviation extractFirstJSONBlock :=
  (extractFirstJSONBlock JSON_parse).

(** X9. [extractFirstJSONArray] gives a value exactly when the text has a
    ['['] and a [']'] after it, and the text from the first ['['] to the
    last [']'] parses to this value; the words before and after are left
    out.  [extractFirstJSONBlock] does the same with braces. *)
Theorem extraction_first_to_last (text : string) (v : json number) :
  (extractFirstJSONArray text = Some v <->
   exists pre mid post,
     text = pre ++ ("[" ++ mid ++ "]") ++ post /\
     occurs "[" pre = false /\ occurs "]" post = false /\
     JSON_parse ("[" ++ mid ++ "]") = inl v) /\
  (extractFirstJSONBlock text = Some v <->
   exists pre mid post,
     text = pre ++ ("{" ++ mid ++ "}") ++ post /\
     occurs "{" pre = false /\ occurs "}" post = false /\
     JSON_parse ("{" ++ mid ++ "}") = inl v).
Proof.
  assert (H : forall o c : ascii,
    match match_enclosed o c text with
    | Some m => match JSON_parse m with inl v' => Some v' | inr _ => None end
    | None => None
    end = Some v <->
    exists pre mid post,
      text = pre ++ String o (mid ++ String c "") ++ post /\
      occurs o pre = false /\ occurs c post = false /\
      JSON_parse (String o (mid ++ String c "")) = inl v).
  { intros o c. split.
    - destruct (match_enclosed o c text) as [m|] eqn:Hm; [|discriminate].
      apply match_enclosed_iff in Hm as (pre & mid & post & -> & -> & Hp & Hq).
      destruct (JSON_parse _) as [v'|] eqn:Hparse; [|discriminate].
      intros [= ->]. exists pre, mid, post. repeat split; assumption.
    - intros (pre & mid & post & -> & Hp & Hq & Hparse).
      replace (match_enclosed o c
                 (pre ++ String o (mid ++ String c "") ++ post))
        with (Some (String o (mid ++ String c ""))).
      + rewrite Hparse. reflexivity.
      + symmetry. apply match_enclosed_iff.
        exists pre, mid, post. repeat split; assumption. }
  split; apply H.
Qed.

End Extraction.

(** Two arrays in a text are handed to the parser as one. *)
Example match_enclosed_two_arrays :
  match_enclosed "[" "]" "first [1, 2] then [3]." = Some "[1, 2] then [3]".
Proof. reflexivity. Qed.

(** *** More on the cache *)

Lemma Map_first_key_set (k : string) (v : entry) (c : Map) (k0 : string) :
  Map_first_key c = Some k0 -> Map_first_key (Map_set k v c) = Some k0.
Proof.
  destruct c as [|[k1 v1] c]; cbn; [discriminate|].
  destruct (String.eqb k1 k); cbn; auto.
Qed.

Lemma Map_keys_set (k : string) (v : entry) (c : Map) :
  Map_keys (Map_set k v c)
  = match Map_get k c with
    | Some _ => Map_keys c
    | None => (Map_keys c ++ [k])%list
    end.
Proof.
  induction c as [|[k0 v0] c IH]; cbn; [reflexivity|].
  destruct (String.eqb k0 k); cbn; [reflexivity|].
  fold (Map_keys (Map_set k v c)). rewrite IH.
  destruct (Map_get k c); reflexivity.
Qed.

Lemma Map_keys_delete (k : string) (c : Map) :
  Map_keys (Map_delete k c)
  = filter (fun k' => negb (String.eqb k' k)) (Map_keys c).
Proof.
  unfold Map_keys, Map_delete.
  induction c as [|[k0 v0] c IH]; cbn; [reflexivity|].
  destruct (String.eqb k0 k); cbn; [exact IH|]. f_equal. exact IH.
Qed.

(** X10. A write can only remove the entry of the oldest key: every other
    key, but the one written, reads after [setCache] as it did before. *)
Theorem setCache_keeps_others (now : Z) (k text k' : string) (c : Map) :
  k' <> k -> Map_first_key c <> Some k' ->
  Map_get k' (setCache now k text c) = Map_get k' c.
Proof.
  intros Hk Hfirst. unfold setCache.
  set (v := {| data := text; timestamp := now |}).
  destruct (100 <? Map_size (Map_set k v c))%nat;
    [|apply Map_get_set_other, Hk].
  destruct c as [|[k0 v0] c].
  - cbn. rewrite String.eqb_refl. cbn.
    destruct (String.eqb_spec k k'); [congruence|reflexivity].
  - rewrite (@Map_first_key_set k v ((k0, v0) :: c) k0) by reflexivity.
    rewrite Map_get_delete_other by (cbn in Hfirst; congruence).
    apply Map_get_set_other, Hk.
Qed.

(** X11. What [setCache] writes, [getCached] reads for 5 minutes: from a
    cache of 100 entries at most, the text written under a key at time
    [now] is read at time [now'] if [now' - now] is less than 300000 ms, and
    is a miss otherwise. *)
Theorem setCache_then_getCached (now now' : Z) (k text : string) (c : Map) :
  (Map_size c <= 100)%nat ->
  getCached now' k (setCache now k text c)
  = if (now' - now <? 300000)%Z then Some text else None.
Proof.
  intros Hc. unfold getCached. rewrite setCache_get_same by exact Hc.
  reflexivity.
Qed.

Lemma setCache_ok (now : Z) (k text : string) (c : Map) :
  cache_ok c -> cache_ok (setCache now k text c).
Proof.
  intros [Hnd Hsize]. split; [|apply setCache_bounded, Hsize].
  unfold setCache.
  set (v := {| data := text; timestamp := now |}).
  assert (Hnd1 : NoDup (Map_keys (Map_set k v c))).
  { rewrite Map_keys_set. destruct (Map_get k c) eqn:Hget; [exact Hnd|].
    apply Map_get_None in Hget.
    apply NoDup_app; [exact Hnd|repeat constructor; intros []|].
    intros x Hx [<-|[]]. exact (Hget Hx). }
  destruct (100 <? Map_size (Map_set k v c))%nat; [|exact Hnd1].
  destruct (Map_first_key (Map_set k v c)); [|exact Hnd1].
  rewrite Map_keys_delete. apply NoDup_filter, Hnd1.
Qed.

(** X12. The cache keeps its keys distinct and its size within 100 entries,
    whatever is written to it. *)
Theorem insert_all_ok (items : list insertion) (c : Map) :
  cache_ok c -> cache_ok (insert_all items c).
Proof.
  revert c. induction items as [|it items IH]; intros c Hc; [exact Hc|].
  cbn. apply IH, setCache_ok, Hc.
Qed.

(** X13. The eviction is by age, not by use: a key that is written again
    keeps its place, so the oldest key of a full cache, even if it has just
    been written again, goes when the next new key comes. *)
Theorem rewritten_key_still_evicted (k0 : string) (v0 : entry) (rest : Map)
    (now1 now2 : Z) (text1 k text2 : string) :
  Map_size ((k0, v0) :: rest) = 100 ->
  ~ In k0 (Map_keys rest) ->
  Map_get k ((k0, v0) :: rest) = None ->
  let c1 := setCache now1 k0 text1 ((k0, v0) :: rest) in
  let c2 := setCache now2 k text2 c1 in
  Map_get k0 c1 = Some {| data := text1; timestamp := now1 |} /\
  Map_keys c1 = Map_keys ((k0, v0) :: rest) /\
  Map_get k0 c2 = None.
Proof.
  intros Hsize Hk0 Hk c1 c2.
  assert (Hc1 : c1 = (k0, {| data := text1; timestamp := now1 |}) :: rest).
  { subst c1. unfold setCache. cbn [Map_set]. rewrite String.eqb_refl.
    unfold Map_size in *. cbn [List.length] in *. rewrite Hsize.
    reflexivity. }
  assert (Hk' : Map_get k c1 = None).
  { rewrite Hc1. cbn in *. destruct (String.eqb k0 k); [discriminate|exact Hk]. }
  split; [rewrite Hc1; cbn; rewrite String.eqb_refl; reflexivity|].
  split; [rewrite Hc1; reflexivity|].
  subst c2. rewrite Hc1 in *.
  rewrite setCache_evicts_oldest; try assumption.
  apply Map_get_None. unfold Map_keys in *. rewrite map_app. cbn [map fst].
  intros Hin. apply in_app_or in Hin as [Hin|[Hin|[]]]; [exact (Hk0 Hin)|].
  cbn in Hk'. rewrite Hin, String.eqb_refl in Hk'. discriminate.
Qed.

(** *** Prefixes of prompts *)

Lemma substring_0_idem (n : nat) (s : string) :
  String.substring 0 n (String.substring 0 n s) = String.substring 0 n s.
Proof.
  revert s. induction n as [|n IH]; intros s.
  - destruct s; reflexivity.
  - destruct s as [|c s]; cbn; [reflexivity|]. rewrite IH. reflexivity.
Qed.

Lemma substring_0_append_long (n : nat) (a b : string) :
  n <= String.length a ->
  String.substring 0 n (a ++ b) = String.substring 0 n a.
Proof.
  revert n. induction a as [|c a IH]; intros n Hn; cbn in *.
  - assert (n = 0) as -> by lia. destruct b; reflexivity.
  - destruct n as [|n]; [reflexivity|]. cbn. rewrite IH by lia. reflexivity.
Qed.

Lemma substring_0_substring (n m : nat) (s : string) :
  n <= m ->
  String.substring 0 n (String.substring 0 m s) = String.substring 0 n s.
Proof.
  revert m s. induction n as [|n IH]; intros m s Hnm.
  - destruct (String.substring 0 m s), s; reflexivity.
  - destruct m as [|m]; [lia|].
    destruct s as [|c s]; cbn; [reflexivity|].
    rewrite IH by lia. reflexivity.
Qed.

(** The first [n] characters of [a ++ b] are those of [a] followed by the
    first [n] characters of [b]. *)
Lemma substring_0_append_cut (n : nat) (a b : string) :
  String.substring 0 n (a ++ b)
  = String.substring 0 n (a ++ String.substring 0 n b).
Proof.
  revert n b. induction a as [|c a IH]; intros n b; cbn [String.append].
  - symmetry. apply substring_0_idem.
  - destruct n as [|n]; cbn; [reflexivity|]. f_equal.
    rewrite (IH n b), (IH n (String.substring 0 (S n) b)).
    rewrite substring_0_substring by lia. reflexivity.
Qed.

Lemma length_substring_0 (m : nat) (s : string) :
  String.length (String.substring 0 m s) = Nat.min m (String.length s).
Proof.
  revert s. induction m as [|m IH]; intros s.
  - destruct s; reflexivity.
  - destruct s as [|c s]; cbn; [reflexivity|]. rewrite IH. reflexivity.
Qed.

(** The cache key of every prompt of [chatWithAI] for a question that is
    not job-related: the first line of the template, 100 characters long. *)
Lemma generalChatPrompt_key (history message : string) :
  String.substring 0 100 (generalChatPrompt history message)
  = "You are a highly intelligent AI assistant - knowledgeable, helpful, and versatile across all topics.".
Proof. reflexivity. Qed.

Ltac peel_string :=
  cbn [String.append newline String.substring];
  repeat match goal with
         | |- String _ _ = String _ _ => f_equal
         end.

(** The cache key of the prompt of [chatWithAI] for a job-related question
    is made of the head of the template and of the skills: the experience,
    the education, the jobs, the conversation and the question itself come
    after the first 100 characters. *)
Lemma jobChatPrompt_key (skills : string) (exp exp' : nat)
    (edu jobs history message edu' jobs' history' message' : string) :
  String.substring 0 100 (jobChatPrompt skills exp edu jobs history message)
  = String.substring 0 100
      (jobChatPrompt skills exp' edu' jobs' history' message').
Proof.
  unfold jobChatPrompt. peel_string.
  set (s := str_or skills "Not specified").
  transitivity (String.substring 0 4 (s ++ newline ++ "- E")).
  - rewrite substring_0_append_cut. symmetry.
    rewrite substring_0_append_cut. reflexivity.
  - rewrite substring_0_append_cut. symmetry.
    rewrite substring_0_append_cut. reflexivity.
Qed.

(** The cache key of the prompt of [parseResume]: 57 characters of the
    template and the first 43 characters of the resume. *)
Lemma parseResumePrompt_key (resumeText : string) :
  43 <= String.length resumeText ->
  String.substring 0 100
    (parseResumePrompt (String.substring 0 2000 resumeText))
  = "Extract JSON from resume (no markdown, no explanation):" ++ newline ++
    newline ++ String.substring 0 43 resumeText.
Proof.
  intros Hlen. unfold parseResumePrompt. peel_string.
  rewrite substring_0_append_long
    by (rewrite length_substring_0; lia).
  apply substring_0_substring. lia.
Qed.

(** *** What a call of [generateRaw] leaves for the next one *)

Section Served.

Variable generateContent : list event -> string -> string -> reply generated.

#[local] Abbreviation generateRaw := (generateRaw generateContent).

Lemma generateRaw_hit (w : world) (m prompt text : string) (stored : Z) :
  settled w -> model w = Some m ->
  Map_get (String.substring 0 100 prompt) (cache w)
    = Some {| data := text; timestamp := stored |} ->
  text <> "" -> (now w - stored < cacheExpiry)%Z ->
  generateRaw prompt w = (Returned text, set_initPromise None w).
Proof.
  intros Hs Hm Hget Htext Hfresh.
  rewrite (@generateRaw_eq generateContent prompt w Hs), Hm. cbv zeta.
  unfold getCached. rewrite Hget. cbn [timestamp data].
  apply Z.ltb_lt in Hfresh. rewrite Hfresh.
  destruct text; [congruence|reflexivity].
Qed.

Lemma generateRaw_stores (w w1 : world) (m prompt text : string) :
  settled w -> model w = Some m -> (Map_size (cache w) <= 100)%nat ->
  generateRaw prompt w = (Returned text, w1) ->
  exists stored,
    Map_get (String.substring 0 100 prompt) (cache w1)
      = Some {| data := text; timestamp := stored |} /\
    settled w1 /\ model w1 = Some m /\ (Map_size (cache w1) <= 100)%nat /\
    (calls w1 = calls w \/ stored = now w1).
Proof.
  intros Hs Hm Hsize Hrun.
  pose proof (@generateRaw_keeps_ready generateContent prompt w Hs Hsize)
    as (Hs1 & Hsize1 & Hm1).
  rewrite Hrun in Hs1, Hsize1, Hm1. cbn [snd] in *. rewrite Hm in Hm1.
  rewrite (@generateRaw_eq generateContent prompt w Hs), Hm in Hrun.
  cbv zeta in Hrun.
  assert (Hfresh :
    match answer (generateContent (calls w) m prompt) with
    | Resolved (inl text0) =>
        (Returned text0,
         set_cache
           (setCache
              (now (outside [Generate m prompt]
                      (latency (generateContent (calls w) m prompt))
                      (set_initPromise None w)))
              (String.substring 0 100 prompt) text0
              (cache (outside [Generate m prompt]
                        (latency (generateContent (calls w) m prompt))
                        (set_initPromise None w))))
           (outside [Generate m prompt]
              (latency (generateContent (calls w) m prompt))
              (set_initPromise None w)))
    | Rejected e | Resolved (inr e) =>
        (Threw e,
         outside [Generate m prompt]
           (latency (generateContent (calls w) m prompt))
           (set_initPromise None w))
    end = (Returned text, w1) ->
    exists stored,
      Map_get (String.substring 0 100 prompt) (cache w1)
        = Some {| data := text; timestamp := stored |} /\
      (calls w1 = calls w \/ stored = now w1)).
  { destruct (answer (generateContent (calls w) m prompt)) as [e|[t|e]];
      try discriminate.
    intros [= <- <-]. eexists. split; [|right; reflexivity].
    cbn [cache set_cache outside set_initPromise now].
    apply setCache_get_same, Hsize. }
  assert (Hgoal : exists stored,
      Map_get (String.substring 0 100 prompt) (cache w1)
        = Some {| data := text; timestamp := stored |} /\
      (calls w1 = calls w \/ stored = now w1)).
  { unfold getCached in Hrun.
    destruct (Map_get (String.substring 0 100 prompt) (cache w))
      as [[d ts]|] eqn:Hget; cbn [timestamp data] in Hrun;
      [|exact (Hfresh Hrun)].
    destruct (now w - ts <? cacheExpiry)%Z; [|exact (Hfresh Hrun)].
    destruct d as [|c d]; [exact (Hfresh Hrun)|].
    injection Hrun as <- <-. exists ts. split; [exact Hget|left; reflexivity]. }
  destruct Hgoal as (stored & Hget & Hst).
  exists stored. repeat split; assumption.
Qed.

(** The text that a call returns is served again to every call with the
    same key, until it expires. *)
Lemma generateRaw_served_again (w w1 : world)
    (m prompt1 prompt2 text : string) :
  settled w -> model w = Some m -> (Map_size (cache w) <= 100)%nat ->
  generateRaw prompt1 w = (Returned text, w1) ->
  text <> "" ->
  String.substring 0 100 prompt2 = String.substring 0 100 prompt1 ->
  exists stored,
    (calls w1 = calls w \/ stored = now w1) /\
    forall ms,
      (now w1 + ms - stored < cacheExpiry)%Z ->
      generateRaw prompt2 (elapse ms w1)
      = (Returned text, set_initPromise None (elapse ms w1)).
Proof.
  intros Hs Hm Hsize Hrun Htext Hkey.
  destruct (@generateRaw_stores w w1 m prompt1 text Hs Hm Hsize Hrun)
    as (stored & Hget & Hs1 & Hm1 & _ & Hst).
  exists stored. split; [exact Hst|]. intros ms Hfresh.
  apply (@generateRaw_hit (elapse ms w1) m prompt2 text stored);
    try assumption.
  rewrite Hkey. exact Hget.
Qed.

(** X14. A hit reads and does nothing else: the call returns the cached
    text, sends nothing to the backend, and leaves the cache as it was,
    times of writing included, so that reading an entry does not make it
    live longer. *)
Theorem cache_hit_changes_nothing (w : world) (m prompt text : string)
    (stored : Z) :
  settled w -> model w = Some m ->
  Map_get (String.substring 0 100 prompt) (cache w)
    = Some {| data := text; timestamp := stored |} ->
  text <> "" -> (now w - stored < cacheExpiry)%Z ->
  let (res, w') := generateRaw prompt w in
  res = Returned text /\
  cache w' = cache w /\ calls w' = calls w /\ now w' = now w.
Proof.
  intros Hs Hm Hget Htext Hfresh.
  rewrite (@generateRaw_hit w m prompt text stored Hs Hm Hget Htext Hfresh).
  repeat split.
Qed.

(** X15. A call of [generateRaw] sends one request to the backend at most,
    and a call that throws writes nothing to the cache. *)
Theorem generateRaw_one_request (prompt : string) (w : world) :
  settled w ->
  let (res, w') := generateRaw prompt w in
  (generation_calls (calls w') <= generation_calls (calls w) + 1)%nat /\
  (forall e, res = Threw e -> cache w' = cache w).
Proof.
  intros Hs. rewrite (@generateRaw_eq generateContent prompt w Hs).
  cbv zeta. unfold generation_calls.
  destruct (model w) as [m|]; [|cbn; split; [lia|reflexivity]].
  assert (Hfresh :
    let r := generateContent (calls w) m prompt in
    let w0 := outside [Generate m prompt] (latency r)
                (set_initPromise None w) in
    let (res, w') :=
      match answer r with
      | Resolved (inl text) =>
          (Returned text,
           set_cache (setCache (now w0) (String.substring 0 100 prompt) text
                        (cache w0)) w0)
      | Rejected e | Resolved (inr e) => (Threw e, w0)
      end in
    (List.length (filter is_generation (calls w'))
     <= List.length (filter is_generation (calls w)) + 1)%nat /\
    (forall e, res = Threw e -> cache w' = cache w)).
  { cbv zeta.
    destruct (answer (generateContent (calls w) m prompt)) as [e|[t|e]];
      cbn; (split; [lia|]); (discriminate || reflexivity). }
  destruct (getCached _ _ _) as [[|c s]|]; try exact Hfresh.
  cbn. split; [lia|discriminate].
Qed.

End Served.

(** *** The public methods *)

Section Methods.

Variable generateContent : list event -> string -> string -> reply generated.
Variable generateContentStream :
  list event -> string -> string -> reply (list string + Error).
Variable number : Type.
Variable number_truthy : number -> bool.
Variable JSON_parse : string -> json number + Error.

#[local] Abbreviation generateRaw := (generateRaw generateContent).
#[local] Abbreviation generateStream :=
  (generateStream generateContentStream).
#[local] Abbreviation extractFirstJSONBlock :=
  (extractFirstJSONBlock JSON_parse).
#[local] Abbreviation parseResume :=
  (parseResume generateContent number_truthy JSON_parse).
#[local] Abbreviation chatWithAI := (chatWithAI generateContent).
#[local] Abbreviation chatWithAIStream :=
  (chatWithAIStream generateContentStream).
#[local] Abbreviation analyzeJobMarket :=
  (analyzeJobMarket generateContent number_truthy JSON_parse).
#[local] Abbreviation getJobRecommendations :=
  (getJobRecommendations generateContent number_truthy JSON_parse).

(** [parseResume] on a resume that is not empty. *)
Lemma parseResume_eq (resumeText : string) (w : world) :
  resumeText <> "" ->
  parseResume resumeText w =
  match generateRaw
          (parseResumePrompt (String.substring 0 2000 resumeText)) w with
  | (Returned text, w') =>
      match extractFirstJSONBlock text with
      | Some json =>
          if truthy number_truthy json then (Returned json, w')
          else (Threw (mkError "Failed to parse resume"), w')
      | None => (Threw (mkError "Failed to parse resume"), w')
      end
  | (Threw _, w') => (Threw (mkError "Failed to parse resume"), w')
  end.
Proof.
  intros Hne. unfold Gemini.parseResume, try_catch, bind.
  destruct (String.eqb_spec resumeText ""); [contradiction|].
  destruct (generateRaw _ w) as [[text|e] w']; [|reflexivity].
  destruct (extractFirstJSONBlock text) as [json|]; [|reflexivity].
  destruct (truthy number_truthy json); reflexivity.
Qed.

(** X16. [parseResume] throws one error only, "Failed to parse resume",
    whatever failed; what it returns is a parsed value that is truthy; and on
    an empty resume it throws at once, without a request to the backend and
    without any change of state. *)
Theorem parseResume_outcomes (resumeText : string) (w : world) :
  let (res, w') := parseResume resumeText w in
  (forall e, res = Threw e -> e = mkError "Failed to parse resume") /\
  (forall json, res = Returned json ->
     truthy number_truthy json = true /\ resumeText <> "") /\
  (resumeText = "" ->
     res = Threw (mkError "Failed to parse resume") /\ w' = w).
Proof.
  destruct (String.eqb_spec resumeText "") as [->|Hne].
  - cbn. split; [intros e [= <-]; reflexivity|].
    split; [discriminate|]. intros _. split; reflexivity.
  - rewrite (parseResume_eq w Hne).
    destruct (generateRaw _ w) as [[text|e] w'].
    + destruct (extractFirstJSONBlock text) as [json|].
      * destruct (truthy number_truthy json) eqn:Ht.
        -- split; [discriminate|]. split; [|contradiction].
           intros j [= <-]. split; assumption.
        -- split; [intros e [= <-]; reflexivity|].
           split; [discriminate|contradiction].
      * split; [intros e [= <-]; reflexivity|].
        split; [discriminate|contradiction].
    + split; [intros e' [= <-]; reflexivity|].
      split; [discriminate|contradiction].
Qed.

Lemma extractFirstJSONBlock_empty : extractFirstJSONBlock "" = None.
Proof. reflexivity. Qed.

(** X17. The cache does not tell apart two resumes that begin with the same
    43 characters: once [parseResume] has returned the parse of the first,
    it returns this same parse for the second, without a request to the
    backend, until the cached text expires. *)
Theorem parseResume_same_head (w w1 : world) (m resume1 resume2 : string)
    (json : json number) :
  settled w -> model w = Some m -> (Map_size (cache w) <= 100)%nat ->
  (43 <= String.length resume1)%nat -> (43 <= String.length resume2)%nat ->
  String.substring 0 43 resume2 = String.substring 0 43 resume1 ->
  parseResume resume1 w = (Returned json, w1) ->
  exists stored,
    (calls w1 = calls w \/ stored = now w1) /\
    forall ms,
      (now w1 + ms - stored < cacheExpiry)%Z ->
      let (res, w2) := parseResume resume2 (elapse ms w1) in
      res = Returned json /\ calls w2 = calls w1.
Proof.
  intros Hs Hm Hsize Hlen1 Hlen2 Hhead Hrun.
  assert (Hne1 : resume1 <> "") by (intros ->; cbn in Hlen1; lia).
  assert (Hne2 : resume2 <> "") by (intros ->; cbn in Hlen2; lia).
  rewrite (parseResume_eq w Hne1) in Hrun.
  destruct (generateRaw _ w) as [[text|e] w'] eqn:Hraw; [|discriminate].
  destruct (extractFirstJSONBlock text) as [j|] eqn:Hex; [|discriminate].
  destruct (truthy number_truthy j) eqn:Ht; [|discriminate].
  injection Hrun as -> ->.
  assert (Htext : text <> "")
    by (intros ->; rewrite extractFirstJSONBlock_empty in Hex; discriminate).
  destruct (@generateRaw_served_again generateContent w w1 m _
              (parseResumePrompt (String.substring 0 2000 resume2)) text
              Hs Hm Hsize Hraw Htext) as (stored & Hst & Hserved).
  { rewrite !parseResumePrompt_key by assumption. rewrite Hhead.
    reflexivity. }
  exists stored. split; [exact Hst|]. intros ms Hfresh.
  rewrite (parseResume_eq (elapse ms w1) Hne2), (Hserved ms Hfresh).
  rewrite Hex, Ht. split; reflexivity.
Qed.

Lemma chatWithAI_eq (message : string) (ctx : context) (w : world) :
  chatWithAI message ctx w =
  match chatPrompt message ctx with
  | inl prompt =>
      match generateRaw prompt w with
      | (Returned text, w') => (Returned text, w')
      | (Threw _, w') => (Threw (mkError "Failed to get AI response"), w')
      end
  | inr _ => (Threw (mkError "Failed to get AI response"), w)
  end.
Proof.
  unfold Gemini.chatWithAI, try_catch, bind, lift.
  destruct (chatPrompt message ctx) as [prompt|e]; [|reflexivity].
  unfold ret at 1. destruct (generateRaw prompt w) as [[text|e] w'];
    reflexivity.
Qed.

(** Two calls of [chatWithAI] whose prompts have the same key. *)
Lemma chatWithAI_served_again (w w1 : world)
    (m message1 message2 prompt2 text : string) (ctx1 ctx2 : context) :
  settled w -> model w = Some m -> (Map_size (cache w) <= 100)%nat ->
  chatWithAI message1 ctx1 w = (Returned text, w1) ->
  text <> "" ->
  chatPrompt message2 ctx2 = inl prompt2 ->
  (forall prompt1, chatPrompt message1 ctx1 = inl prompt1 ->
     String.substring 0 100 prompt2 = String.substring 0 100 prompt1) ->
  exists stored,
    (calls w1 = calls w \/ stored = now w1) /\
    forall ms,
      (now w1 + ms - stored < cacheExpiry)%Z ->
      let (res, w2) := chatWithAI message2 ctx2 (elapse ms w1) in
      res = Returned text /\ calls w2 = calls w1.
Proof.
  intros Hs Hm Hsize Hrun Htext Hp2 Hkey.
  rewrite chatWithAI_eq in Hrun.
  destruct (chatPrompt message1 ctx1) as [prompt1|e]; [|discriminate].
  destruct (generateRaw prompt1 w) as [[t|e] w'] eqn:Hraw; [|discriminate].
  injection Hrun as -> ->.
  destruct (@generateRaw_served_again generateContent w w1 m prompt1 prompt2
              text Hs Hm Hsize Hraw Htext (Hkey prompt1 eq_refl))
    as (stored & Hst & Hserved).
  exists stored. split; [exact Hst|]. intros ms Hfresh.
  rewrite chatWithAI_eq, Hp2, (Hserved ms Hfresh). split; reflexivity.
Qed.

(** X18. All the questions that are not job-related have one cache key, the
    first line of their prompt: once [chatWithAI] has answered one of them,
    it gives this same answer to any other, whatever the question and the
    conversation, without a request to the backend, until the cached answer
    expires. *)
Theorem general_questions_share_answer (w w1 : world)
    (m message1 message2 prompt2 text : string) (ctx1 ctx2 : context) :
  settled w -> model w = Some m -> (Map_size (cache w) <= 100)%nat ->
  isJobRelatedQuestion message1 = false ->
  isJobRelatedQuestion message2 = false ->
  chatWithAI message1 ctx1 w = (Returned text, w1) ->
  text <> "" ->
  chatPrompt message2 ctx2 = inl prompt2 ->
  exists stored,
    (calls w1 = calls w \/ stored = now w1) /\
    forall ms,
      (now w1 + ms - stored < cacheExpiry)%Z ->
      let (res, w2) := chatWithAI message2 ctx2 (elapse ms w1) in
      res = Returned text /\ calls w2 = calls w1.
Proof.
  intros Hs Hm Hsize Hj1 Hj2 Hrun Htext Hp2.
  apply (@chatWithAI_served_again w w1 m message1 message2 prompt2 text
           ctx1 ctx2); try assumption.
  intros prompt1 Hp1. unfold chatPrompt in Hp1, Hp2.
  rewrite Hj1 in Hp1. rewrite Hj2 in Hp2.
  destruct (historySnippet 3 80 newline (ctx_chatHistory ctx1));
    [|discriminate].
  destruct (historySnippet 3 80 newline (ctx_chatHistory ctx2));
    [|discriminate].
  injection Hp1 as <-. injection Hp2 as <-.
  rewrite !generalChatPrompt_key. reflexivity.
Qed.

(** X19. The cache key of a job-related question holds nothing of the
    question: for the same skills, once [chatWithAI] has answered a
    job-related question, it gives this same answer to any other one,
    whatever the question, the jobs and the conversation, without a request
    to the backend, until the cached answer expires. *)
Theorem job_questions_share_answer (w w1 : world)
    (m message1 message2 prompt2 text : string) (ctx1 ctx2 : context) :
  settled w -> model w = Some m -> (Map_size (cache w) <= 100)%nat ->
  isJobRelatedQuestion message1 = true ->
  isJobRelatedQuestion message2 = true ->
  skillsOf (ctx_resumeData ctx2) = skillsOf (ctx_resumeData ctx1) ->
  chatWithAI message1 ctx1 w = (Returned text, w1) ->
  text <> "" ->
  chatPrompt message2 ctx2 = inl prompt2 ->
  exists stored,
    (calls w1 = calls w \/ stored = now w1) /\
    forall ms,
      (now w1 + ms - stored < cacheExpiry)%Z ->
      let (res, w2) := chatWithAI message2 ctx2 (elapse ms w1) in
      res = Returned text /\ calls w2 = calls w1.
Proof.
  intros Hs Hm Hsize Hj1 Hj2 Hskills Hrun Htext Hp2.
  apply (@chatWithAI_served_again w w1 m message1 message2 prompt2 text
           ctx1 ctx2); try assumption.
  intros prompt1 Hp1. unfold chatPrompt in Hp1, Hp2.
  rewrite Hj1 in Hp1. rewrite Hj2 in Hp2.
  destruct (historySnippet 3 60 " | " (ctx_chatHistory ctx1));
    [|discriminate].
  destruct (historySnippet 3 60 " | " (ctx_chatHistory ctx2));
    [|discriminate].
  injection Hp1 as <-. injection Hp2 as <-.
  rewrite Hskills. apply jobChatPrompt_key.
Qed.

Lemma generateStream_cache (prompt : string) (w : world) :
  let (res, w') := generateStream prompt w in
  cache w' = cache w /\
  (generation_calls (calls w') <= generation_calls (calls w) + 1)%nat /\
  (model w = None -> calls w' = calls w).
Proof.
  unfold Gemini.generateStream, bind, ensureReady, generation_calls.
  destruct (_initPromise w) as [[[]|e]|]; cbn;
    try (split; [reflexivity|split; [lia|reflexivity]]);
    destruct (model w) as [m|]; cbn;
    try (split; [reflexivity|split; [lia|reflexivity]]);
    destruct (answer (generateContentStream (calls w) m prompt)); cbn;
    (split; [reflexivity|split; [lia|discriminate]]).
Qed.

(** X20. The streamed chat does not use the cache: whatever the question,
    the context and the state of the gateway, [chatWithAIStream] leaves the
    cache as it was and sends one request to the backend at most; the one
    error it throws is "Failed to get AI stream response". *)
Theorem chatWithAIStream_outcomes (message : string) (ctx : context)
    (w : world) :
  let (res, w') := chatWithAIStream message ctx w in
  cache w' = cache w /\
  (generation_calls (calls w') <= generation_calls (calls w) + 1)%nat /\
  (forall e, res = Threw e ->
     e = mkError "Failed to get AI stream response").
Proof.
  unfold Gemini.chatWithAIStream, try_catch, bind, lift.
  destruct (chatStreamPrompt message ctx) as [prompt|e].
  2:{ cbn. split; [reflexivity|]. split; [lia|].
      intros e' [= <-]. reflexivity. }
  unfold ret at 1.
  pose proof (generateStream_cache prompt w) as H.
  destruct (generateStream prompt w) as [[stream|e] w'];
    destruct H as (Hc & Hg & _); cbn;
    (split; [exact Hc|]); (split; [exact Hg|]).
  - discriminate.
  - intros e' [= <-]. reflexivity.
Qed.

(** X21. [chatWithAI] throws one error only, "Failed to get AI response",
    and [analyzeJobMarket] throws none: it returns a parsed value that is
    truthy, or [null]. *)
Theorem chat_and_market_outcomes (message : string) (ctx : context)
    (jobs : option (list listing)) (w : world) :
  (forall e, fst (chatWithAI message ctx w) = Threw e ->
     e = mkError "Failed to get AI response") /\
  exists r,
    fst (analyzeJobMarket jobs w) = Returned r /\
    forall json, r = Some json -> truthy number_truthy json = true.
Proof.
  split.
  - rewrite chatWithAI_eq.
    destruct (chatPrompt message ctx) as [prompt|e0];
      [|intros e [= <-]; reflexivity].
    destruct (generateRaw prompt w) as [[text|e0] w']; cbn;
      [discriminate|intros e [= <-]; reflexivity].
  - unfold Gemini.analyzeJobMarket, try_catch, bind. cbv zeta.
    destruct (generateRaw _ w) as [[text|e0] w']; cbn.
    2:{ exists None. split; [reflexivity|discriminate]. }
    destruct (Gemini.extractFirstJSONBlock JSON_parse text) as [json|]; cbn.
    2:{ exists None. split; [reflexivity|discriminate]. }
    destruct (truthy number_truthy json) eqn:Ht.
    + exists (Some json). split; [reflexivity|]. intros j [= <-]. exact Ht.
    + exists None. split; [reflexivity|discriminate].
Qed.

(** X22. What the callers see of a gateway without a model: [chatWithAI],
    [chatWithAIStream] and [parseResume] throw their own error, not "No
    active Gemini model initialized"; [getJobRecommendations] returns an
    empty array and [analyzeJobMarket] returns [null]; none of them sends a
    request to the backend. *)
Theorem callers_of_uninitialized_gateway (w : world) (message resumeText : string)
    (ctx : context) (resumeData : option resume)
    (availableJobs : option (list job)) (jobs : option (list listing)) :
  settled w -> model w = None ->
  (forall prompt, chatPrompt message ctx = inl prompt ->
     chatWithAI message ctx w
     = (Threw (mkError "Failed to get AI response"), set_initPromise None w)) /\
  (forall prompt, chatStreamPrompt message ctx = inl prompt ->
     chatWithAIStream message ctx w
     = (Threw (mkError "Failed to get AI stream response"),
        set_initPromise None w)) /\
  (resumeText <> "" ->
   parseResume resumeText w
   = (Threw (mkError "Failed to parse resume"), set_initPromise None w)) /\
  fst (getJobRecommendations resumeData availableJobs w) = Returned [] /\
  calls (snd (getJobRecommendations resumeData availableJobs w)) = calls w /\
  analyzeJobMarket jobs w = (Returned None, set_initPromise None w).
Proof.
  intros Hs Hm.
  assert (Hraw : forall prompt,
    generateRaw prompt w = (Threw not_initialized, set_initPromise None w)).
  { intros prompt. rewrite (@generateRaw_eq generateContent prompt w Hs), Hm.
    reflexivity. }
  split; [|split; [|split; [|split; [|split]]]].
  - intros prompt Hp. rewrite chatWithAI_eq, Hp, Hraw. reflexivity.
  - intros prompt Hp.
    unfold Gemini.chatWithAIStream, try_catch, bind, lift. rewrite Hp.
    unfold ret at 1.
    rewrite (@generateStream_eq generateContentStream prompt w Hs), Hm.
    reflexivity.
  - intros Hne. rewrite (parseResume_eq w Hne), Hraw. reflexivity.
  - unfold Gemini.getJobRecommendations, try_catch, bind, lift.
    destruct (recommendationPrompt resumeData availableJobs);
      [|reflexivity].
    unfold ret at 1. rewrite Hraw. reflexivity.
  - unfold Gemini.getJobRecommendations, try_catch, bind, lift.
    destruct (recommendationPrompt resumeData availableJobs);
      [|reflexivity].
    unfold ret at 1. rewrite Hraw. reflexivity.
  - unfold Gemini.analyzeJobMarket, try_catch, bind. cbv zeta.
    rewrite Hraw. reflexivity.
Qed.

End Methods.

(** *** The list of the discovery endpoint *)

Lemma substring_0_length (s : string) :
  String.substring 0 (String.length s) s = s.
Proof. induction s as [|c s IH]; cbn; [|rewrite IH]; reflexivity. Qed.

Lemma strip_names_spec (ms : list model_info) (names : list string) :
  strip_names ms = inl names ->
  forall n, In n names <->
    exists info raw,
      In info ms /\ name info = Some raw /\
      n = replace_first "models/" "" raw.
Proof.
  revert names. induction ms as [|info ms IH]; intros names; cbn.
  - intros [= <-] n. split; [intros []|intros (i & r & [] & _)].
  - destruct (name info) as [raw|] eqn:Hname; [|discriminate].
    destruct (strip_names ms) as [names'|]; [|discriminate].
    intros [= <-] n. cbn [In]. rewrite (IH names' eq_refl n). split.
    + intros [<-|(i & r & Hi & Hr & ->)].
      * exists info, raw. auto.
      * exists i, r. auto.
    + intros (i & r & [->|Hi] & Hr & ->).
      * left. congruence.
      * right. exists i, r. auto.
Qed.

(** X25. The candidates of the fallback are the models of the list that
    support [generateContent], each named by its [name] without the first
    "models/" in it: a name "models/x" gives the candidate "x". *)
Theorem availableModels_spec (models : list model_info)
    (names : list string) :
  availableModels (Some models) = inl names ->
  (forall n, In n names <->
     exists info raw,
       In info models /\ supports_generateContent info = true /\
       name info = Some raw /\ n = replace_first "models/" "" raw) /\
  (forall x, replace_first "models/" "" ("models/" ++ x) = x).
Proof.
  intros H. split.
  - intros n. cbn in H. rewrite (strip_names_spec _ H n). split.
    + intros (info & raw & Hin & Hname & ->).
      apply filter_In in Hin as [Hin Hs]. exists info, raw. auto.
    + intros (info & raw & Hin & Hs & Hname & ->).
      exists info, raw. split; [apply filter_In; auto|auto].
  - intros x. unfold replace_first.
    replace (String.index 0 "models/" ("models/" ++ x)) with (Some 0)
      by (destruct x; reflexivity).
    cbn. rewrite Nat.sub_0_r. apply substring_0_length.
Qed.

(** *** More on initialization *)

(** The candidates are the listed models, one for one and in their
    order. *)
Lemma strip_names_Forall2 (ms : list model_info) :
  (forall info, In info ms -> name info <> None) ->
  exists names, strip_names ms = inl names /\ Forall2 candidate_of ms names.
Proof.
  induction ms as [|info ms IH]; intros Hnames.
  - exists []. split; [reflexivity|constructor].
  - destruct IH as (names & Hs & Hall);
      [intros i Hi; apply Hnames; right; exact Hi|].
    cbn [strip_names].
    destruct (name info) as [raw|] eqn:Hraw;
      [|destruct (Hnames info (or_introl eq_refl) Hraw)].
    rewrite Hs. eexists. split; [reflexivity|].
    constructor; [exists raw; split; [exact Hraw|reflexivity]|exact Hall].
Qed.

Lemma Forall2_In_r (A B : Type) (R : A -> B -> Prop) (l1 : list A)
    (l2 : list B) (y : B) :
  Forall2 R l1 l2 -> In y l2 -> exists x, In x l1 /\ R x y.
Proof.
  induction 1 as [|x y' l1 l2 Hxy Hall IH]; intros Hin; [destruct Hin|].
  destruct Hin as [->|Hin].
  - exists x. split; [left; reflexivity|exact Hxy].
  - destruct (IH Hin) as (x' & Hx' & Hr). exists x'. split; [right|]; auto.
Qed.

Section Discovery.

Variable generateContent : list event -> string -> string -> reply generated.
Variable generateContentStream :
  list event -> string -> string -> reply (list string + Error).
Variable fetchModels : list event -> reply fetched.

#[local] Abbreviation accepts := (accepts generateContent).
#[local] Abbreviation tryEach := (tryEach generateContent).
#[local] Abbreviation initWith := (initWith generateContent fetchModels).
#[local] Abbreviation serve_all :=
  (serve_all generateContent generateContentStream).

(** X23. The fallback: when the probes of all the hardcoded candidates fail
    and the discovery endpoint answers with a list of models, the models of
    this list that support [generateContent] are probed in their turn, in
    the order in which the endpoint lists them, after one fetch; the first
    whose probe succeeds becomes the active model, and the models listed
    after it are not probed.  (Each listed model that supports
    [generateContent] has a [name]: the names are all read before the first
    probe.) *)
Theorem discovery_fallback (candidates : list string)
    (before : list model_info) (chosen : model_info)
    (after : list model_info) (raw : string) (w : world) :
  (forall h c, In c candidates -> accepts h c = false) ->
  (forall h, answer (fetchModels h)
             = FetchResponse true (inl (Some (before ++ chosen :: after)%list))) ->
  (forall info, In info (before ++ chosen :: after)%list ->
     supports_generateContent info = true -> name info <> None) ->
  supports_generateContent chosen = true ->
  name chosen = Some raw ->
  (forall h info c, In info before ->
     supports_generateContent info = true -> candidate_of info c ->
     accepts h c = false) ->
  (forall h, accepts h (replace_first "models/" "" raw) = true) ->
  let (res, w') := initWith candidates w in
  res = Returned tt /\
  activeModelName w' = Some (replace_first "models/" "" raw) /\
  model w' = Some (replace_first "models/" "" raw) /\
  fetch_calls (calls w') = fetch_calls (calls w) + 1 /\
  exists tried,
    Forall2 candidate_of (filter supports_generateContent before) tried /\
    probed (calls w')
    = (probed (calls w) ++ candidates ++ tried
       ++ [replace_first "models/" "" raw])%list.
Proof.
  intros Hhard Hfetch Hnames Hchosen Hraw Hbefore Hm.
  assert (Hav : exists tried rest,
    availableModels (Some (before ++ chosen :: after)%list)
    = inl (tried ++ replace_first "models/" "" raw :: rest)%list /\
    Forall2 candidate_of (filter supports_generateContent before) tried).
  { destruct (@strip_names_Forall2
                (filter supports_generateContent (before ++ chosen :: after)%list))
      as (names & Hstrip & Hall).
    { intros info Hin. apply filter_In in Hin as [Hin Hs].
      apply Hnames; assumption. }
    rewrite filter_app in Hall, Hstrip. cbn [filter] in Hall, Hstrip.
    rewrite Hchosen in Hall, Hstrip.
    apply Forall2_app_inv_l in Hall as (tried & rest' & Ht & Hr & ->).
    inversion Hr as [|x c l rest Hc Hrest]; subst.
    destruct Hc as (raw' & Hraw' & ->).
    rewrite Hraw in Hraw'. injection Hraw' as <-.
    exists tried, rest. split; [|exact Ht].
    cbn [availableModels]. rewrite filter_app. cbn [filter].
    rewrite Hchosen. exact Hstrip. }
  destruct Hav as (tried & rest & Hav & Htried).
  assert (Hpre : forall h c, In c tried -> accepts h c = false).
  { intros h c Hin.
    destruct (@Forall2_In_r _ _ _ _ _ c Htried Hin) as (info & Hinfo & Hc).
    apply filter_In in Hinfo as [Hinfo Hs].
    exact (Hbefore h info c Hinfo Hs Hc). }
  unfold Gemini.initWith, bind.
  pose proof (tryEach_all_fail generateContent candidates w Hhard) as H.
  destruct (tryEach candidates w) as [res1 w1].
  destruct H as (-> & Hp1 & Hf1 & _).
  unfold try_catch, discover, bind, do_fetch.
  specialize (Hfetch (calls w1)).
  destruct (fetchModels (calls w1)) as [ms ans]. cbn [answer latency] in *.
  subst ans. cbn [fst snd lift]. unfold ret at 1. rewrite Hav. cbn [lift].
  unfold ret at 1.
  pose proof (@tryEach_first_success generateContent tried
                (replace_first "models/" "" raw) rest
                (outside [Fetch] ms w1)) as H.
  destruct (tryEach (tried ++ replace_first "models/" "" raw :: rest)
              (outside [Fetch] ms w1)) as [res2 w2].
  destruct H as (-> & Hp2 & Hf2 & _ & Ha & Hmodel).
  { intros i c h Hi _. apply Hpre. eapply nth_error_In, Hi. }
  { intros h _. apply Hm. }
  cbn. split; [reflexivity|]. split; [exact Ha|]. split; [exact Hmodel|].
  cbn in Hp2, Hf2. split.
  - rewrite Hf2. unfold fetch_calls in *. cbn. lia.
  - exists tried. split; [exact Htried|].
    rewrite Hp2, Hp1, <- !app_assoc. reflexivity.
Qed.

Lemma serve_no_probe (rq : request) (w : world) :
  let (c, w') := serve generateContent generateContentStream rq w in
  probed (calls w') = probed (calls w) /\
  fetch_calls (calls w') = fetch_calls (calls w) /\
  model w' = model w /\ activeModelName w' = activeModelName w.
Proof.
  destruct rq as [prompt|prompt];
    unfold serve, bind, Gemini.generateRaw, Gemini.generateStream,
      ensureReady, do_generateContent, bind, ret;
    repeat (match goal with
            | |- context [match _initPromise w with _ => _ end] =>
                destruct (_initPromise w) as [[[]|?]|]
            | |- context [match model ?x with _ => _ end] =>
                destruct (model x) eqn:?
            | |- context [match getCached ?a ?b ?c with _ => _ end] =>
                destruct (getCached a b c) as [[|? ?]|]
            | |- context [match answer ?r with _ => _ end] =>
                destruct (answer r)
            | |- context [match ?x with inl _ => _ | inr _ => _ end] =>
                destruct x
            end; cbn);
    repeat split; cbn; congruence.
Qed.

(** X24. Initialization is not run a second time: whatever calls of
    [generateRaw] and [generateStream] follow, at any time, none probes a
    model or fetches the list of models, and the active model stays what it
    was, so a gateway without a model stays without one. *)
Theorem no_second_initialization (rqs : list (Z * request)) (w : world) :
  let (cs, w') := serve_all rqs w in
  probed (calls w') = probed (calls w) /\
  fetch_calls (calls w') = fetch_calls (calls w) /\
  model w' = model w /\ activeModelName w' = activeModelName w.
Proof.
  revert w. induction rqs as [|[ms rq] rqs IH]; intros w.
  - cbn. repeat split.
  - cbn [Gemini.serve_all].
    pose proof (serve_no_probe rq (elapse ms w)) as H.
    destruct (serve generateContent generateContentStream rq (elapse ms w))
      as [c w1].
    specialize (IH w1). destruct (serve_all rqs w1) as [cs w2].
    destruct H as (H1 & H2 & H3 & H4). destruct IH as (I1 & I2 & I3 & I4).
    change (calls (elapse ms w)) with (calls w) in *.
    change (model (elapse ms w)) with (model w) in *.
    change (activeModelName (elapse ms w)) with (activeModelName w) in *.
    repeat split; congruence.
Qed.

End Discovery.

(** *** The properties above, at instances *)

(** X8: the keyword "work" in "NETWORK". *)
Lemma isJobRelatedQuestion_iff_witness :
  isJobRelatedQuestion "My NETWORK is down" = true.
Proof.
  apply (proj2 (isJobRelatedQuestion_iff "My NETWORK is down")).
  exists "work", "My NET", "WORK", " is down".
  split; [|split; reflexivity].
  unfold jobKeywords. do 10 right. left. reflexivity.
Defined.

(** X9: an array between two sentences. *)
Lemma extraction_first_to_last_witness :
  extractFirstJSONArray parse_seven "Here you are: [...] Good luck!"
  = Some (JArray [ recommendation "j1" 85; JNull;
                   JObject [("jobId", JString "j2")];
                   recommendation "" 90;
                   JObject [("jobId", JString "j3");
                            ("matchScore", JString "0.7")];
                   recommendation "j4" 80; recommendation "j5" 75;
                   recommendation "j6" 70; recommendation "j7" 65;
                   recommendation "j8" 60; recommendation "j9" 60 ]).
Proof.
  apply (proj1 (@extraction_first_to_last nat parse_seven
                  "Here you are: [...] Good luck!" _)).
  exists "Here you are: ", "...", " Good luck!".
  repeat split.
Defined.

(** X10: writing the key 2 leaves the key 1, which is not the oldest. *)
Lemma setCache_keeps_others_witness :
  Map_get "1" (setCache 5 "2" "answer" (bindings [numbered 0; numbered 1]))
  = Map_get "1" (bindings [numbered 0; numbered 1]).
Proof.
  apply (@setCache_keeps_others 5 "2" "answer" "1"
           (bindings [numbered 0; numbered 1])); discriminate.
Defined.

(** X11: written at time 1000, read at time 301000. *)
Lemma setCache_then_getCached_witness :
  getCached 301000 "key" (setCache 1000 "key" "answer" [])
  = if (301000 - 1000 <? 300000)%Z then Some "answer" else None.
Proof.
  apply (@setCache_then_getCached 1000 301000 "key" "answer" []).
  cbn. lia.
Defined.

(** X12: 150 insertions into an empty cache. *)
Lemma insert_all_ok_witness :
  cache_ok (insert_all (map numbered (seq 0 150)) []).
Proof.
  apply (@insert_all_ok (map numbered (seq 0 150)) []).
  split; [constructor|cbn; lia].
Defined.

(** X13: the keys 0 to 99; the key 0 is written again, then a new key. *)
Lemma rewritten_key_still_evicted_witness :
  let rest := bindings (map numbered (seq 1 99)) in
  let c1 := setCache 500 "0" "again" (("0", mkEntry "answer 0" 0) :: rest) in
  let c2 := setCache 600 "new" "text" c1 in
  Map_get "0" c1 = Some {| data := "again"; timestamp := 500 |} /\
  Map_keys c1 = Map_keys (("0", mkEntry "answer 0" 0) :: rest) /\
  Map_get "0" c2 = None.
Proof.
  apply (@rewritten_key_still_evicted "0" (mkEntry "answer 0" 0)
           (bindings (map numbered (seq 1 99))) 500 600 "again" "new" "text").
  - reflexivity.
  - intros Hin.
    assert (H : existsb (String.eqb "0")
                  (Map_keys (bindings (map numbered (seq 1 99)))) = true)
      by (apply existsb_exists; exists "0"; split;
          [exact Hin|reflexivity]).
    vm_compute in H. discriminate.
  - vm_compute. reflexivity.
Defined.

(** X14: the answer to a question, read again one minute later. *)
Lemma cache_hit_changes_nothing_witness :
  let w := elapse 60000
             (snd (generateRaw always_OK "What is Rocq?"
                     (service always_OK unreachable 0))) in
  let (res, w') := generateRaw always_OK "What is Rocq?" w in
  res = Returned "OK" /\
  cache w' = cache w /\ calls w' = calls w /\ now w' = now w.
Proof.
  apply (@cache_hit_changes_nothing always_OK
           (elapse 60000
              (snd (generateRaw always_OK "What is Rocq?"
                      (service always_OK unreachable 0))))
           "gemini-1.5-flash-8b" "What is Rocq?" "OK" 200).
  - left. reflexivity.
  - reflexivity.
  - reflexivity.
  - discriminate.
  - reflexivity.
Defined.

(** X15: on the service just constructed. *)
Lemma generateRaw_one_request_witness :
  let (res, w') :=
    generateRaw no_model "Hello" (service always_OK unreachable 0) in
  (generation_calls (calls w')
   <= generation_calls (calls (service always_OK unreachable 0)) + 1)%nat /\
  (forall e, res = Threw e ->
     cache w' = cache (service always_OK unreachable 0)).
Proof.
  apply (@generateRaw_one_request no_model "Hello"
           (service always_OK unreachable 0)).
  right. reflexivity.
Defined.

(** X16: the empty resume. *)
Lemma parseResume_outcomes_witness :
  parseResume answers_block (fun n => negb (n =? 0)%nat) parse_block ""
    (service answers_block unreachable 0)
  = (Threw (mkError "Failed to parse resume"),
     service answers_block unreachable 0).
Proof.
  pose proof (@parseResume_outcomes answers_block nat
                (fun n => negb (n =? 0)%nat) parse_block ""
                (service answers_block unreachable 0)) as H.
  destruct (parseResume answers_block (fun n => negb (n =? 0)%nat)
              parse_block "" (service answers_block unreachable 0))
    as [res w'].
  destruct H as (_ & _ & H). destruct (H eq_refl) as [-> ->]. reflexivity.
Defined.

(** X17: two resumes with the same first 43 characters, one minute apart. *)
Lemma parseResume_same_head_witness :
  exists stored,
    let w := service answers_block unreachable 0 in
    let w1 :=
      snd (parseResume answers_block (fun n => negb (n =? 0)%nat)
             parse_block resume_A w) in
    (calls w1 = calls w \/ stored = now w1) /\
    forall ms,
      (now w1 + ms - stored < cacheExpiry)%Z ->
      let (res, w2) :=
        parseResume answers_block (fun n => negb (n =? 0)%nat) parse_block
          resume_B (elapse ms w1) in
      res = Returned (JObject [("parsed", JString "{...}")]) /\
      calls w2 = calls w1.
Proof.
  apply (@parseResume_same_head answers_block nat
           (fun n => negb (n =? 0)%nat) parse_block
           (service answers_block unreachable 0)
           (snd (parseResume answers_block (fun n => negb (n =? 0)%nat)
                   parse_block resume_A
                   (service answers_block unreachable 0)))
           "gemini-1.5-flash-8b" resume_A resume_B
           (JObject [("parsed", JString "{...}")])).
  - right. reflexivity.
  - reflexivity.
  - cbn. lia.
  - cbn. lia.
  - cbn. lia.
  - reflexivity.
  - vm_compute. reflexivity.
Defined.

(** X18: two questions that are not job-related. *)
Lemma general_questions_share_answer_witness :
  exists stored,
    let w := service always_OK unreachable 0 in
    let w1 := snd (chatWithAI always_OK "Capital of France?" no_context w) in
    (calls w1 = calls w \/ stored = now w1) /\
    forall ms,
      (now w1 + ms - stored < cacheExpiry)%Z ->
      let (res, w2) :=
        chatWithAI always_OK "Square root of two?" no_context
          (elapse ms w1) in
      res = Returned "OK" /\ calls w2 = calls w1.
Proof.
  apply (@general_questions_share_answer always_OK
           (service always_OK unreachable 0)
           (snd (chatWithAI always_OK "Capital of France?" no_context
                   (service always_OK unreachable 0)))
           "gemini-1.5-flash-8b" "Capital of France?" "Square root of two?"
           (generalChatPrompt "" "Square root of two?") "OK"
           no_context no_context).
  - right. reflexivity.
  - reflexivity.
  - cbn. lia.
  - reflexivity.
  - reflexivity.
  - vm_compute. reflexivity.
  - discriminate.
  - reflexivity.
Defined.

(** X19: two job-related questions, without a resume. *)
Lemma job_questions_share_answer_witness :
  exists stored,
    let w := service always_OK unreachable 0 in
    let w1 := snd (chatWithAI always_OK "Any job for me?" no_context w) in
    (calls w1 = calls w \/ stored = now w1) /\
    forall ms,
      (now w1 + ms - stored < cacheExpiry)%Z ->
      let (res, w2) :=
        chatWithAI always_OK "Which salary can I ask?" no_context
          (elapse ms w1) in
      res = Returned "OK" /\ calls w2 = calls w1.
Proof.
  apply (@job_questions_share_answer always_OK
           (service always_OK unreachable 0)
           (snd (chatWithAI always_OK "Any job for me?" no_context
                   (service always_OK unreachable 0)))
           "gemini-1.5-flash-8b" "Any job for me?" "Which salary can I ask?"
           (jobChatPrompt "" 0 "" "" "" "Which salary can I ask?") "OK"
           no_context no_context).
  - right. reflexivity.
  - reflexivity.
  - cbn. lia.
  - reflexivity.
  - reflexivity.
  - reflexivity.
  - vm_compute. reflexivity.
  - discriminate.
  - reflexivity.
Defined.

(** X20: the stream of a backend that serves none. *)
Lemma chatWithAIStream_outcomes_witness :
  fst (chatWithAIStream no_stream "Hello" no_context
         (service always_OK unreachable 0))
  = Threw (mkError "Failed to get AI stream response").
Proof.
  pose proof (@chatWithAIStream_outcomes no_stream "Hello" no_context
                (service always_OK unreachable 0)) as H.
  destruct (chatWithAIStream no_stream "Hello" no_context
              (service always_OK unreachable 0)) as [[stream|e] w'] eqn:Hrun.
  - vm_compute in Hrun. discriminate.
  - destruct H as (_ & _ & H). rewrite (H e eq_refl). reflexivity.
Defined.

(** X21: a chat on a backend that serves no model. *)
Lemma chat_and_market_outcomes_witness :
  fst (chatWithAI no_model "Hello" no_context
         (service always_OK unreachable 0))
  = Threw (mkError "Failed to get AI response").
Proof.
  pose proof (@chat_and_market_outcomes no_model nat
                (fun n => negb (n =? 0)%nat) parse_block "Hello" no_context
                None (service always_OK unreachable 0)) as [H _].
  destruct (chatWithAI no_model "Hello" no_context
              (service always_OK unreachable 0)) as [[text|e] w'] eqn:Hrun.
  - vm_compute in Hrun. discriminate.
  - cbn [fst] in *. rewrite (H e eq_refl). reflexivity.
Defined.

(** X22: the service constructed on a backend that serves no model. *)
Lemma callers_of_uninitialized_gateway_witness :
  let w := service no_model unreachable 0 in
  chatWithAI no_model "Hello" no_context w
  = (Threw (mkError "Failed to get AI response"), set_initPromise None w) /\
  fst (getJobRecommendations no_model (fun n => negb (n =? 0)%nat)
         parse_seven None None w) = Returned [] /\
  analyzeJobMarket no_model (fun n => negb (n =? 0)%nat) parse_block None w
  = (Returned None, set_initPromise None w).
Proof.
  pose proof (@callers_of_uninitialized_gateway no_model no_stream nat
                (fun n => negb (n =? 0)%nat) parse_block
                (service no_model unreachable 0) "Hello" resume_A no_context
                None None None) as H.
  destruct H as (Hchat & _ & _ & _ & _ & Hmarket).
  - right. reflexivity.
  - reflexivity.
  - split; [apply (Hchat (generalChatPrompt "" "Hello")); reflexivity|].
    split; [reflexivity|exact Hmarket].
Defined.

(** X23: the hardcoded models are not served; the endpoint lists four
    models; the first does not generate, the second is not served, the third
    is, and so is the fourth, which is not probed. *)
Lemma discovery_fallback_witness :
  let (res, w') := initWith serves_x_and_y lists_four fastModels blank in
  res = Returned tt /\
  activeModelName w' = Some (replace_first "models/" "" "models/gemini-x") /\
  model w' = Some (replace_first "models/" "" "models/gemini-x") /\
  fetch_calls (calls w') = fetch_calls (calls blank) + 1 /\
  exists tried,
    Forall2 candidate_of
      (filter supports_generateContent [embedding_001; gemini_w]) tried /\
    probed (calls w')
    = (probed (calls blank) ++ fastModels ++ tried
       ++ [replace_first "models/" "" "models/gemini-x"])%list.
Proof.
  apply (@discovery_fallback serves_x_and_y lists_four fastModels
           [embedding_001; gemini_w] gemini_x [gemini_y] "models/gemini-x"
           blank).
  - intros h c Hin. cbn in Hin.
    repeat (destruct Hin as [<-|Hin]; [reflexivity|]). destruct Hin.
  - reflexivity.
  - intros info Hin _. cbn in Hin.
    repeat (destruct Hin as [<-|Hin]; [discriminate|]). destruct Hin.
  - reflexivity.
  - reflexivity.
  - intros h info c [<-|[<-|[]]] Hs (raw & Hraw & ->);
      [discriminate|]. injection Hraw as <-. reflexivity.
  - reflexivity.
Defined.

(** The probes of that run, in order: the six hardcoded models, then
    "gemini-w" and "gemini-x"; "gemini-y" is served and is not probed. *)
Example discovery_in_listed_order :
  let w' := snd (initWith serves_x_and_y lists_four fastModels blank) in
  probed (calls w') = (fastModels ++ ["gemini-w"; "gemini-x"])%list /\
  activeModelName w' = Some "gemini-x" /\
  accepts serves_x_and_y (calls w') "gemini-y" = true.
Proof. vm_compute. repeat split. Qed.

(** X25: the list of the two models. *)
Lemma availableModels_spec_witness :
  (forall n, In n ["gemini-x"] <->
     exists info raw,
       In info [ mkModelInfo (Some "models/gemini-x")
                   (Some ["generateContent"; "countTokens"]);
                 mkModelInfo (Some "models/embedding-001")
                   (Some ["embedContent"]) ] /\
       supports_generateContent info = true /\
       name info = Some raw /\ n = replace_first "models/" "" raw) /\
  (forall x, replace_first "models/" "" ("models/" ++ x) = x).
Proof.
  apply (@availableModels_spec
           [ mkModelInfo (Some "models/gemini-x")
               (Some ["generateContent"; "countTokens"]);
             mkModelInfo (Some "models/embedding-001")
               (Some ["embedContent"]) ]
           ["gemini-x"]).
  reflexivity.
Defined.

End GeminiSpec.
